(** * A verified model of [scene/octree.py]

    The Python class [Octree] is a uniform grid over a cube: a dictionary
    [cells] from cell coordinates to the list of point handles registered in
    the cell, and a dictionary [point_cells] from handles to the list of
    cells they were registered in.

    Numbers.  The program computes with numpy [float64].  Here a finite
    float is an exact rational ([Q]): the arithmetic does not round and
    does not overflow to [inf], and [log2] is exact.  What numpy's division
    adds to the finite values ([inf], [-inf], [nan] on a zero divisor, with
    a warning and no exception) is kept, in [np_float], because the program
    reaches it.  [astype(int)] is the cast to int64: what it gives for
    [nan], the infinities and the floats outside int64 depends on the
    platform and is the section variable [int_of_nonfinite].

    What is proved.  The theorems on the two dictionaries use the cell set
    of a position as a list without repetition and nothing else, so they
    hold whatever the rounding.  The theorems that relate numbers rest on
    comparisons and zero tests that binary64 decides as the rationals do
    ([range_val <= min_cell_size], equal positions, a zero divisor); none
    promises a bound that rounding could break.

    Arrays.  [points], [scales] and [rotations] are lists of rows.  A store
    [a[i] = x] converts [x] to the dtype of [a]; the model keeps [x], and
    the theorems on [update_point] say which rows are written, not what
    they hold afterwards.

    State.  Methods mutate [self]; here every method takes the object and
    returns the object after the call, together with what the call returned
    or raised. *)

From Stdlib Require Import QArith Qround Qminmax ZArith Lia Lqa.
From stdpp Require Import gmap list sorting.

Open Scope Z_scope.

(** ** Exceptions and results *)

Inductive exn := ValueError | OverflowError | IndexError.

Inductive result (A : Type) :=
  | Ok (a : A)
  | Err (e : exn).
Arguments Ok {A} a.
Arguments Err {A} e.

#[global] Instance result_ret : MRet result := λ A a, Ok a.
#[global] Instance result_bind : MBind result := λ A B f m,
  match m with Ok a => f a | Err e => Err e end.

Definition is_Ok {A} (r : result A) : Prop := ∃ a, r = Ok a.
Definition is_Err {A} (r : result A) : Prop := ∃ e, r = Err e.

(** ** Numbers *)

Inductive np_float :=
  | Fin (q : Q)
  | PInf
  | NInf
  | NaN.

Definition is_finite (x : np_float) : bool :=
  match x with Fin _ => true | _ => false end.

Definition Qltb (a b : Q) : bool := negb (Qle_bool b a).
Definition Qis0 (a : Q) : bool := Qeq_bool a 0.

(** [a / b] on two finite floats, as numpy computes it. *)
Definition np_div (a b : Q) : np_float :=
  if Qis0 b then
    if Qis0 a then NaN else if Qltb 0 a then PInf else NInf
  else Fin (a / b).

(** [x * n] for a float [x] and a Python integer [n]. *)
Definition np_mul_int (x : np_float) (n : Z) : np_float :=
  match x with
  | Fin q => Fin (q * inject_Z n)
  | PInf => if decide (0 < n) then PInf else if decide (n < 0) then NInf else NaN
  | NInf => if decide (0 < n) then NInf else if decide (n < 0) then PInf else NaN
  | NaN => NaN
  end.

(** [floor(log2 q)] for a rational [0 < q]. *)
Definition floor_log2 (q : Q) : Z :=
  if Qle_bool 1 q then Z.log2 (Qfloor q) else - Z.log2_up (Qceiling (/ q)).

(** [int(np.floor(np.log2(x)))]: [log2] of a negative number or of [nan]
    is [nan], of zero is [-inf]; Python's [int] raises [ValueError] on
    [nan] and [OverflowError] on an infinity. *)
Definition int_floor_log2 (x : np_float) : result Z :=
  match x with
  | Fin q =>
      if Qltb 0 q then Ok (floor_log2 q)
      else if Qis0 q then Err OverflowError
      else Err ValueError
  | PInf => Err OverflowError
  | NInf => Err ValueError
  | NaN => Err ValueError
  end.

(** [np.clip(z, lo, hi)] is [minimum(maximum(z, lo), hi)]. *)
Definition np_clip (z lo hi : Z) : Z := Z.min (Z.max z lo) hi.

(** Python's [range(a, b)]. *)
Definition py_range (a b : Z) : list Z := seqZ a (b - a).

(** ** Vectors *)

Definition vec3 : Type := Q * Q * Q.
Definition mat3 : Type := vec3 * vec3 * vec3.
Definition cell : Type := Z * Z * Z.

Definition vx (v : vec3) : Q := v.1.1.
Definition vy (v : vec3) : Q := v.1.2.
Definition vz (v : vec3) : Q := v.2.

Definition vmap2 (f : Q → Q → Q) (a b : vec3) : vec3 :=
  (f (vx a) (vx b), f (vy a) (vy b), f (vz a) (vz b)).
Definition vmap (f : Q → Q) (a : vec3) : vec3 := (f (vx a), f (vy a), f (vz a)).

Definition vadd : vec3 → vec3 → vec3 := vmap2 Qplus.
Definition vsub : vec3 → vec3 → vec3 := vmap2 Qminus.
Definition vmin : vec3 → vec3 → vec3 := vmap2 Qmin.
Definition vmax : vec3 → vec3 → vec3 := vmap2 Qmax.

(** [a.min(axis=0)] and [a.max(axis=0)] of an (N, 3) array: numpy raises
    [ValueError] on an empty one. *)
Definition np_min_axis0 (pts : list vec3) : result vec3 :=
  match pts with
  | [] => Err ValueError
  | p :: ps => Ok (foldl vmin p ps)
  end.

Definition np_max_axis0 (pts : list vec3) : result vec3 :=
  match pts with
  | [] => Err ValueError
  | p :: ps => Ok (foldl vmax p ps)
  end.

(** [v.max()] of a 3-vector. *)
Definition np_max3 (v : vec3) : Q := Qmax (Qmax (vx v) (vy v)) (vz v).

(** [a[i] = x] on the first axis of an array of [N] rows: indices in
    [-N, N) are accepted, negative ones count from the end, anything else
    raises [IndexError]. *)
Definition np_setitem {A} (l : list A) (i : Z) (x : A) : result (list A) :=
  let n := Z.of_nat (length l) in
  if decide (0 ≤ i < n) then Ok (<[Z.to_nat i := x]> l)
  else if decide (- n ≤ i < 0) then Ok (<[Z.to_nat (n + i) := x]> l)
  else Err IndexError.

(** [a[i]], read. *)
Definition np_getitem {A} (l : list A) (i : Z) : result A :=
  let n := Z.of_nat (length l) in
  let j := if decide (0 ≤ i) then i else n + i in
  if decide (0 ≤ j < n) then
    match l !! Z.to_nat j with Some x => Ok x | None => Err IndexError end
  else Err IndexError.

(** [l.remove(x)]: the first occurrence goes; used only under [x in l]. *)
Fixpoint list_remove (x : Z) (l : list Z) : list Z :=
  match l with
  | [] => []
  | y :: l' => if decide (x = y) then l' else y :: list_remove x l'
  end.

(** ** The object *)

Record Octree := mkOctree {
  points : list vec3;
  scales : list vec3;
  rotations : list mat3;
  min_cell_size : Q;
  global_min : vec3;
  global_max : vec3;
  depth : Z;
  n_cells : Z;
  cell_size : vec3;
  default_extent : Q;
  cells : gmap cell (list Z);
  point_cells : gmap Z (list cell)
}.

Definition set_points (t : Octree) (v : list vec3) : Octree :=
  mkOctree v (scales t) (rotations t) (min_cell_size t) (global_min t)
    (global_max t) (depth t) (n_cells t) (cell_size t) (default_extent t)
    (cells t) (point_cells t).
Definition set_scales (t : Octree) (v : list vec3) : Octree :=
  mkOctree (points t) v (rotations t) (min_cell_size t) (global_min t)
    (global_max t) (depth t) (n_cells t) (cell_size t) (default_extent t)
    (cells t) (point_cells t).
Definition set_rotations (t : Octree) (v : list mat3) : Octree :=
  mkOctree (points t) (scales t) v (min_cell_size t) (global_min t)
    (global_max t) (depth t) (n_cells t) (cell_size t) (default_extent t)
    (cells t) (point_cells t).
Definition set_cells (t : Octree) (v : gmap cell (list Z)) : Octree :=
  mkOctree (points t) (scales t) (rotations t) (min_cell_size t) (global_min t)
    (global_max t) (depth t) (n_cells t) (cell_size t) (default_extent t)
    v (point_cells t).
Definition set_point_cells (t : Octree) (v : gmap Z (list cell)) : Octree :=
  mkOctree (points t) (scales t) (rotations t) (min_cell_size t) (global_min t)
    (global_max t) (depth t) (n_cells t) (cell_size t) (default_extent t)
    (cells t) v.

(** The six grid parameters of the object. *)
Definition grid_params (t : Octree) : vec3 * vec3 * Z * Z * vec3 * Q :=
  (global_min t, global_max t, depth t, n_cells t, cell_size t, default_extent t).

(** [self.cells.get(c, [])] and its counterpart for [point_cells]. *)
Definition cells_get (t : Octree) (c : cell) : list Z := default [] (cells t !! c).
Definition point_cells_get (t : Octree) (h : Z) : list cell :=
  default [] (point_cells t !! h).

Section octree.

(** What [astype(int)] makes of a float that has no int64: [nan], [inf],
    [-inf] and the finite floats outside [-2^63, 2^63).  On x86-64 it is
    [-2^63] for all of them. *)
Variable int_of_nonfinite : Z.

(** [np.floor(x).astype(int)]. *)
Definition floor_astype_int (x : np_float) : Z :=
  match x with
  | Fin q =>
      if decide (- 2 ^ 63 ≤ Qfloor q < 2 ^ 63) then Qfloor q
      else int_of_nonfinite
  | _ => int_of_nonfinite
  end.

(** ** [__init__], first part: the grid and the two empty dictionaries *)

(** The local [range_val] of [__init__]: the largest axis extent. *)
Definition range_val (basic_min basic_max : vec3) : Q :=
  np_max3 (vsub basic_max basic_min).

(** [int(np.floor(np.log2(range_val / min_cell_size))) if range_val >
    min_cell_size else 0]. *)
Definition derive_depth (rv mcs : Q) : result Z :=
  if Qltb mcs rv then int_floor_log2 (np_div rv mcs) else Ok 0.

(** [2 ** depth if depth > 0 else 1]. *)
Definition derive_n_cells (d : Z) : Z := if decide (0 < d) then 2 ^ d else 1.

(** [__init__] from its first line to [self.point_cells = {}]. *)
Definition derive_grid (pts scs : list vec3) (rots : list mat3) (mcs : Q)
    : result Octree :=
  basic_min ← np_min_axis0 pts;
  basic_max ← np_max_axis0 pts;
  let center := vmap (λ x, x / 2)%Q (vadd basic_min basic_max) in
  let rv := range_val basic_min basic_max in
  let gmin := vmap (λ x, x - rv / 2)%Q center in
  let gmax := vmap (λ x, x + rv / 2)%Q center in
  d ← derive_depth rv mcs;
  let n := derive_n_cells d in
  let csz := vmap (λ x, x / inject_Z n)%Q (vsub gmax gmin) in
  Ok (mkOctree pts scs rots mcs gmin gmax d n csz (vx csz / 4)%Q ∅ ∅).

(** ** [_get_cell_indices_for_point] *)

(** One axis of [(p - self.global_min) / self.cell_size]. *)
Definition cell_quotient (x gmin csz : Q) : np_float := np_div (x - gmin) csz.

(** One axis of [np.clip(np.floor(...).astype(int), 0, self.n_cells - 1)]. *)
Definition cell_index (t : Octree) (x gmin csz : Q) : Z :=
  np_clip (floor_astype_int (cell_quotient x gmin csz)) 0 (n_cells t - 1).

Definition _get_cell_indices_for_point (t : Octree) (point : vec3) : list cell :=
  let p_min := vmap (λ x, x - default_extent t)%Q point in
  let p_max := vmap (λ x, x + default_extent t)%Q point in
  let gm := global_min t in
  let cs := cell_size t in
  let sx := cell_index t (vx p_min) (vx gm) (vx cs) in
  let sy := cell_index t (vy p_min) (vy gm) (vy cs) in
  let sz := cell_index t (vz p_min) (vz gm) (vz cs) in
  let ex := cell_index t (vx p_max) (vx gm) (vx cs) in
  let ey := cell_index t (vy p_max) (vy gm) (vy cs) in
  let ez := cell_index t (vz p_max) (vz gm) (vz cs) in
  ix ← py_range sx (ex + 1);
  iy ← py_range sy (ey + 1);
  iz ← py_range sz (ez + 1);
  [(ix, iy, iz)].

(** ** [_insert_point] *)

(** One turn of the loop over [cell_indices]: create the list if the cell
    is new, then append. *)
Definition register_in_cell (index : Z) (cs : gmap cell (list Z)) (c : cell)
    : gmap cell (list Z) :=
  let cs' := match cs !! c with Some _ => cs | None => <[c := []]> cs end in
  match cs' !! c with
  | Some l => <[c := l ++ [index]]> cs'
  | None => cs'
  end.

Definition _insert_point (t : Octree) (index : Z) (point scale : vec3)
    (rotation : mat3) : Octree :=
  let cell_indices := _get_cell_indices_for_point t point in
  let t1 := set_point_cells t (<[index := cell_indices]> (point_cells t)) in
  set_cells t1 (foldl (register_in_cell index) (cells t1) cell_indices).

(** ** [remove_point] *)

(** One turn of the loop over [self.point_cells[index]]. *)
Definition unregister_from_cell (index : Z) (cs : gmap cell (list Z)) (c : cell)
    : gmap cell (list Z) :=
  match cs !! c with
  | Some l => if decide (index ∈ l) then <[c := list_remove index l]> cs else cs
  | None => cs
  end.

Definition remove_point (t : Octree) (index : Z) : Octree :=
  match point_cells t !! index with
  | Some pcs =>
      let t1 := set_cells t (foldl (unregister_from_cell index) (cells t) pcs) in
      set_point_cells t1 (delete index (point_cells t1))
  | None => t
  end.

(** ** [update_point] *)

(** The object after the call, and [Err] when one of the three stores
    raised: what was done before the exception stays done. *)
Definition update_point (t : Octree) (index : Z) (new_point new_scale : vec3)
    (new_rotation : mat3) : Octree * result () :=
  let t1 := remove_point t index in
  match np_setitem (points t1) index new_point with
  | Err e => (t1, Err e)
  | Ok ps =>
      let t2 := set_points t1 ps in
      match np_setitem (scales t2) index new_scale with
      | Err e => (t2, Err e)
      | Ok ss =>
          let t3 := set_scales t2 ss in
          match np_setitem (rotations t3) index new_rotation with
          | Err e => (t3, Err e)
          | Ok rs =>
              let t4 := set_rotations t3 rs in
              (_insert_point t4 index new_point new_scale new_rotation, Ok ())
          end
      end
  end.

(** ** [insert_point] *)

Definition insert_point (t : Octree) (point scale : vec3) (rotation : mat3)
    : Octree * Z :=
  let index := Z.of_nat (length (points t)) in
  let t1 := set_points t (points t ++ [point]) in
  let t2 := set_scales t1 (scales t1 ++ [scale]) in
  let t3 := set_rotations t2 (rotations t2 ++ [rotation]) in
  (_insert_point t3 index point scale rotation, index).

(** ** [query_cell] and [query] *)

(** One axis of [(point - self.global_min) / (self.global_max -
    self.global_min)]. *)
Definition rel_pos (x gmin gmax : Q) : np_float := np_div (x - gmin) (gmax - gmin).

Definition query_index (t : Octree) (x gmin gmax : Q) : Z :=
  np_clip (floor_astype_int (np_mul_int (rel_pos x gmin gmax) (n_cells t)))
    0 (n_cells t - 1).

Definition query_cell (t : Octree) (point : vec3) : cell :=
  let gm := global_min t in
  let gM := global_max t in
  (query_index t (vx point) (vx gm) (vx gM),
   query_index t (vy point) (vy gm) (vy gM),
   query_index t (vz point) (vz gm) (vz gM)).

Definition query (t : Octree) (point : vec3) : list Z :=
  cells_get t (query_cell t point).

(** ** [__init__], second part: the insertion loop *)

(** [for i in range(N): self._insert_point(i, self.points[i],
    self.scales[i], self.rotations[i])], [idx] being what is left of
    [range(N)]. *)
Fixpoint build_index (t : Octree) (idx : list Z) : result Octree :=
  match idx with
  | [] => Ok t
  | i :: rest =>
      p ← np_getitem (points t) i;
      s ← np_getitem (scales t) i;
      r ← np_getitem (rotations t) i;
      build_index (_insert_point t i p s r) rest
  end.

(** [Octree(points, scales, rotations, min_cell_size)]: the object, or the
    exception that leaves the caller without one. *)
Definition __init__ (pts scs : list vec3) (rots : list mat3) (mcs : Q)
    : result Octree :=
  t0 ← derive_grid pts scs rots mcs;
  build_index t0 (py_range 0 (Z.of_nat (length (points t0)))).

(** ** Calls and call sequences *)

Inductive call :=
  | InsertPoint (point scale : vec3) (rotation : mat3)
  | UpdatePoint (index : Z) (point scale : vec3) (rotation : mat3)
  | RemovePoint (index : Z)
  | QueryCell (point : vec3)
  | Query (point : vec3).

(** The object after one call, whether the call returned or raised.
    [query_cell] and [query] assign nothing in [self]: they are functions
    of the object, which stays as it is. *)
Definition after_call (t : Octree) (c : call) : Octree :=
  match c with
  | InsertPoint p s r => (insert_point t p s r).1
  | UpdatePoint i p s r => (update_point t i p s r).1
  | RemovePoint i => remove_point t i
  | QueryCell _ => t
  | Query _ => t
  end.

Definition after_calls (t : Octree) (cs : list call) : Octree :=
  foldl after_call t cs.

(** ** Properties of objects *)

(** The three coordinate projections. *)
Definition is_axis (π : vec3 → Q) : Prop := π = vx ∨ π = vy ∨ π = vz.

(** Two positions are the same point. *)
Definition vec_eq (p q : vec3) : Prop :=
  (vx p == vx q ∧ vy p == vy q ∧ vz p == vz q)%Q.

(** [range_val] of the non-empty array [p :: ps]. *)
Definition bbox_range (p : vec3) (ps : list vec3) : Q :=
  range_val (foldl vmin p ps) (foldl vmax p ps).

(** The local [range_val] of [__init__], as a function of the array. *)
Definition init_range_val (pts : list vec3) : result Q :=
  basic_min ← np_min_axis0 pts;
  basic_max ← np_max_axis0 pts;
  Ok (range_val basic_min basic_max).

(** What [__init__] establishes about the grid, [rv] being [range_val]. *)
Definition grid_ok (t : Octree) (rv : Q) : Prop :=
  (0 <= rv)%Q ∧ 1 ≤ n_cells t ∧
  (∀ π, is_axis π →
     (π (global_max t) - π (global_min t) == rv)%Q ∧
     (π (cell_size t) == rv / inject_Z (n_cells t))%Q) ∧
  (default_extent t == rv / inject_Z (n_cells t) / 4)%Q.

(** The two dictionaries mirror each other. *)
Definition consistent (t : Octree) : Prop :=
  ∀ h c, h ∈ cells_get t c ↔ c ∈ point_cells_get t h.

(** Every registered handle indexes the arrays. *)
Definition handles_in_range (t : Octree) : Prop :=
  ∀ h, is_Some (point_cells t !! h) →
    - Z.of_nat (length (points t)) ≤ h < Z.of_nat (length (points t)).

Record index_ok (t : Octree) : Prop := mk_index_ok {
  ok_consistent : consistent t;
  ok_cells_nodup : ∀ c, NoDup (cells_get t c);
  ok_point_cells_nodup : ∀ h, NoDup (point_cells_get t h);
  ok_handles : handles_in_range t
}.

(** The three arrays are long enough for every handle given out. *)
Definition stores_ok (t : Octree) : Prop :=
  (length (points t) ≤ length (scales t))%nat ∧
  (length (points t) ≤ length (rotations t))%nat.

(** The index a quotient with no int64 gets from the cast and the clip. *)
Definition nonfinite_index (t : Octree) : Z :=
  np_clip int_of_nonfinite 0 (n_cells t - 1).

(** Coordinates small enough for [basic_min + basic_max] and the corners
    of the cube not to overflow binary64. *)
Definition in_float_range (pts : list vec3) : Prop :=
  ∀ q π, q ∈ pts → is_axis π →
    (- inject_Z (2 ^ 1022) <= π q)%Q ∧ (π q <= inject_Z (2 ^ 1022))%Q.

(** ** Test scenes *)

(** What [astype(int)] gives for [nan] and the infinities on x86-64. *)
Definition int64_min : Z := - 2 ^ 63.

Definition identity : mat3 := ((1, 0, 0), (0, 1, 0), (0, 0, 1))%Q.
Definition ones : vec3 := (1, 1, 1)%Q.
Definition origin : vec3 := (0, 0, 0)%Q.
Definition centre : vec3 := (1 # 2, 1 # 2, 1 # 2)%Q.

(** Two corners of the unit cube: one cell at [min_cell_size = 0.6]. *)
Definition unit_points : list vec3 := [origin; ones].

(** Two corners of a cube of edge 4: four cells per axis at 0.6. *)
Definition wide_points : list vec3 := [origin; (4, 4, 4)%Q].


(** ** Counting calls *)

Definition is_insert (c : call) : bool :=
  match c with InsertPoint _ _ _ => true | _ => false end.

(** The number of [insert_point] calls in a sequence. *)
Definition n_inserts (cs : list call) : nat := length (filter is_insert cs).

(** * Facts *)

(** ** Numbers *)

Section numeric_facts.
Local Open Scope Q_scope.

Lemma Qltb_lt a b : Qltb a b = true ↔ a < b.
Proof.
  unfold Qltb. rewrite negb_true_iff, <- not_true_iff_false, Qle_bool_iff.
  split; [apply Qnot_le_lt | apply Qlt_not_le].
Qed.

Lemma Qltb_ge a b : Qltb a b = false ↔ b <= a.
Proof.
  unfold Qltb. rewrite negb_false_iff. apply Qle_bool_iff.
Qed.

Lemma Qis0_eq a : Qis0 a = true ↔ a == 0.
Proof. apply Qeq_bool_iff. Qed.

Lemma Qis0_neq a : Qis0 a = false ↔ ¬ a == 0.
Proof. rewrite <- not_true_iff_false, Qis0_eq. reflexivity. Qed.

Lemma np_div_zero a b : b == 0 → is_finite (np_div a b) = false.
Proof.
  intros Hb. unfold np_div. apply Qis0_eq in Hb. rewrite Hb.
  destruct (Qis0 a), (Qltb 0 a); reflexivity.
Qed.

Lemma np_div_nonzero a b : ¬ b == 0 → np_div a b = Fin (a / b).
Proof. intros Hb. unfold np_div. apply Qis0_neq in Hb. now rewrite Hb. Qed.

(** [floor_log2] on [1 <= q]: the largest power of two below [q]. *)
Lemma floor_log2_spec q :
  1 <= q →
  (0 <= floor_log2 q)%Z ∧
  inject_Z (2 ^ floor_log2 q) <= q ∧ q < 2 * inject_Z (2 ^ floor_log2 q).
Proof.
  intros Hq. unfold floor_log2.
  rewrite (proj2 (Qle_bool_iff 1 q) Hq).
  assert (H1 : (1 <= Qfloor q)%Z).
  { change 1%Z with (Qfloor 1). by apply Qfloor_resp_le. }
  destruct (Z.log2_spec (Qfloor q)) as [Hlo Hhi]; [lia |].
  split; [apply Z.log2_nonneg |]. split.
  - apply Qle_trans with (inject_Z (Qfloor q)); [| apply Qfloor_le].
    rewrite <- Zle_Qle. exact Hlo.
  - apply Qlt_le_trans with (inject_Z (Qfloor q + 1)); [apply Qlt_floor |].
    change 2 with (inject_Z 2). rewrite <- inject_Z_mult, <- Zle_Qle.
    rewrite Z.pow_succ_r in Hhi; [lia | apply Z.log2_nonneg].
Qed.

End numeric_facts.


Section bounding_box.
Local Open Scope Q_scope.

Lemma axis_vmap2 π f a b : is_axis π → π (vmap2 f a b) = f (π a) (π b).
Proof. by intros [-> | [-> | ->]]. Qed.

Lemma axis_vmap π f a : is_axis π → π (vmap f a) = f (π a).
Proof. by intros [-> | [-> | ->]]. Qed.

Lemma axis_vmin π a b : is_axis π → π (vmin a b) = Qmin (π a) (π b).
Proof. apply axis_vmap2. Qed.

Lemma axis_vmax π a b : is_axis π → π (vmax a b) = Qmax (π a) (π b).
Proof. apply axis_vmap2. Qed.

Lemma axis_vadd π a b : is_axis π → π (vadd a b) = (π a + π b)%Q.
Proof. apply axis_vmap2. Qed.

Lemma axis_vsub π a b : is_axis π → π (vsub a b) = (π a - π b)%Q.
Proof. apply axis_vmap2. Qed.

Lemma vec_eq_axes p q : vec_eq p q ↔ ∀ π, is_axis π → π p == π q.
Proof.
  split.
  - intros (Hx & Hy & Hz) π [-> | [-> | ->]]; assumption.
  - intros H. repeat split; apply H; unfold is_axis; auto.
Qed.

Lemma foldl_vmin_le π ps p q :
  is_axis π → q ∈ p :: ps → π (foldl vmin p ps) <= π q.
Proof.
  intros Hπ. revert p q. induction ps as [| r ps IH]; intros p q Hq; simpl.
  - apply list_elem_of_singleton in Hq as ->. apply Qle_refl.
  - assert (Hstep : π (vmin p r) <= π p ∧ π (vmin p r) <= π r).
    { rewrite axis_vmin by done.
      split; [apply Q.le_min_l | apply Q.le_min_r]. }
    apply elem_of_cons in Hq as [-> | Hq].
    + eapply Qle_trans; [apply IH; left | apply Hstep].
    + apply elem_of_cons in Hq as [-> | Hq].
      * eapply Qle_trans; [apply IH; left | apply Hstep].
      * apply IH. by right.
Qed.

Lemma foldl_vmax_ge π ps p q :
  is_axis π → q ∈ p :: ps → π q <= π (foldl vmax p ps).
Proof.
  intros Hπ. revert p q. induction ps as [| r ps IH]; intros p q Hq; simpl.
  - apply list_elem_of_singleton in Hq as ->. apply Qle_refl.
  - assert (Hstep : π p <= π (vmax p r) ∧ π r <= π (vmax p r)).
    { rewrite axis_vmax by done.
      split; [apply Q.le_max_l | apply Q.le_max_r]. }
    apply elem_of_cons in Hq as [-> | Hq].
    + eapply Qle_trans; [apply Hstep | apply IH; left].
    + apply elem_of_cons in Hq as [-> | Hq].
      * eapply Qle_trans; [apply Hstep | apply IH; left].
      * apply IH. by right.
Qed.

Lemma foldl_vmin_attained π ps p :
  is_axis π → ∃ q, q ∈ p :: ps ∧ π (foldl vmin p ps) == π q.
Proof.
  intros Hπ. revert p. induction ps as [| r ps IH]; intros p; simpl.
  - exists p. split; [left | reflexivity].
  - destruct (IH (vmin p r)) as (q & Hq & Heq).
    apply elem_of_cons in Hq as [-> | Hq].
    + rewrite axis_vmin in Heq by done.
      destruct (Q.min_spec (π p) (π r)) as [[_ Hm] | [_ Hm]].
      * exists p. split; [left | by rewrite Heq, Hm].
      * exists r. split; [right; left | by rewrite Heq, Hm].
    + exists q. split; [by do 2 right | done].
Qed.

Lemma foldl_vmax_attained π ps p :
  is_axis π → ∃ q, q ∈ p :: ps ∧ π (foldl vmax p ps) == π q.
Proof.
  intros Hπ. revert p. induction ps as [| r ps IH]; intros p; simpl.
  - exists p. split; [left | reflexivity].
  - destruct (IH (vmax p r)) as (q & Hq & Heq).
    apply elem_of_cons in Hq as [-> | Hq].
    + rewrite axis_vmax in Heq by done.
      destruct (Q.max_spec (π p) (π r)) as [[_ Hm] | [_ Hm]].
      * exists r. split; [right; left | by rewrite Heq, Hm].
      * exists p. split; [left | by rewrite Heq, Hm].
    + exists q. split; [by do 2 right | done].
Qed.

(** [(v.max())] is the largest of the three coordinates. *)
Lemma np_max3_ge π v : is_axis π → π v <= np_max3 v.
Proof.
  unfold np_max3. intros [-> | [-> | ->]].
  - eapply Qle_trans; [apply Q.le_max_l | apply Q.le_max_l].
  - eapply Qle_trans; [apply Q.le_max_r | apply Q.le_max_l].
  - apply Q.le_max_r.
Qed.

Lemma np_max3_attained v : ∃ π, is_axis π ∧ np_max3 v == π v.
Proof.
  unfold np_max3, is_axis.
  destruct (Q.max_spec (Qmax (vx v) (vy v)) (vz v)) as [[_ H] | [_ H]].
  - exists vz. auto.
  - destruct (Q.max_spec (vx v) (vy v)) as [[_ H'] | [_ H']].
    + exists vy. split; [auto | by rewrite H, H'].
    + exists vx. split; [auto | by rewrite H, H'].
Qed.

(** The bounding box of a non-empty array and its largest extent. *)
Lemma range_val_nonneg p ps :
  0 <= range_val (foldl vmin p ps) (foldl vmax p ps).
Proof.
  unfold range_val.
  eapply Qle_trans; [| apply (np_max3_ge vx); unfold is_axis; auto].
  rewrite axis_vsub by (unfold is_axis; auto).
  assert (vx (foldl vmin p ps) <= vx p)
    by (apply foldl_vmin_le; [unfold is_axis; auto | left]).
  assert (vx p <= vx (foldl vmax p ps))
    by (apply foldl_vmax_ge; [unfold is_axis; auto | left]).
  lra.
Qed.

Lemma range_val_pos_iff p ps :
  0 < range_val (foldl vmin p ps) (foldl vmax p ps) ↔
  ∃ a b, a ∈ p :: ps ∧ b ∈ p :: ps ∧ ¬ vec_eq a b.
Proof.
  unfold range_val. split.
  - intros Hpos.
    destruct (np_max3_attained (vsub (foldl vmax p ps) (foldl vmin p ps)))
      as (π & Hπ & Hmax).
    rewrite Hmax in Hpos. rewrite axis_vsub in Hpos by done.
    destruct (foldl_vmax_attained π ps p Hπ) as (a & Ha & Hea).
    destruct (foldl_vmin_attained π ps p Hπ) as (b & Hb & Heb).
    exists a, b. repeat split; [done | done |].
    rewrite vec_eq_axes. intros Heq. specialize (Heq π Hπ). lra.
  - intros (a & b & Ha & Hb & Hne).
    assert (∃ π, is_axis π ∧ ¬ π a == π b) as (π & Hπ & Hd).
    { unfold vec_eq in Hne.
      destruct (Qeq_dec (vx a) (vx b)); [| exists vx; unfold is_axis; auto].
      destruct (Qeq_dec (vy a) (vy b)); [| exists vy; unfold is_axis; auto].
      destruct (Qeq_dec (vz a) (vz b)); [| exists vz; unfold is_axis; auto].
      tauto. }
    eapply Qlt_le_trans; [| apply (np_max3_ge π); done].
    rewrite axis_vsub by done.
    pose proof (foldl_vmin_le π ps p a Hπ Ha).
    pose proof (foldl_vmin_le π ps p b Hπ Hb).
    pose proof (foldl_vmax_ge π ps p a Hπ Ha).
    pose proof (foldl_vmax_ge π ps p b Hπ Hb).
    destruct (Q_dec (π a) (π b)) as [[? | ?] | ?]; [lra | lra | done].
Qed.

End bounding_box.


Section grid_facts.
Local Open Scope Q_scope.

Lemma derive_n_cells_pow d : (0 <= d)%Z → derive_n_cells d = (2 ^ d)%Z.
Proof.
  intros Hd. unfold derive_n_cells. case_decide; [done |].
  by replace d with 0%Z by lia.
Qed.

Lemma derive_n_cells_pos d : (1 <= derive_n_cells d)%Z.
Proof.
  unfold derive_n_cells. case_decide; [| done].
  assert (0 < 2 ^ d)%Z by (apply Z.pow_pos_nonneg; lia). lia.
Qed.

Lemma derive_depth_clamped rv mcs : rv <= mcs → derive_depth rv mcs = Ok 0%Z.
Proof. intros H. unfold derive_depth. by rewrite (proj2 (Qltb_ge _ _) H). Qed.

Lemma derive_depth_computed rv mcs d :
  0 <= rv → mcs < rv → derive_depth rv mcs = Ok d →
  0 < mcs ∧ (0 <= d)%Z ∧
  mcs * inject_Z (2 ^ d) <= rv ∧ rv < 2 * mcs * inject_Z (2 ^ d).
Proof.
  intros Hrv Hlt. unfold derive_depth. rewrite (proj2 (Qltb_lt _ _) Hlt).
  unfold np_div. destruct (Qis0 mcs) eqn:Hm0.
  { destruct (Qis0 rv); [done |]. by destruct (Qltb 0 rv). }
  apply Qis0_neq in Hm0. simpl.
  destruct (Qltb 0 (rv / mcs)) eqn:Hpos; [| by destruct (Qis0 (rv / mcs))].
  apply Qltb_lt in Hpos. intros [= <-].
  assert (Hm : 0 < mcs).
  { destruct (Qlt_le_dec 0 mcs) as [| Hle]; [done | exfalso].
    assert (Hneg : mcs < 0) by (destruct (Q_dec mcs 0) as [[|]|]; [done | lra | done]).
    assert (Hq : rv == rv / mcs * mcs) by (field; done).
    assert (rv / mcs * mcs < 0) by nra. lra. }
  assert (Hq : rv == rv / mcs * mcs) by (field; done).
  assert (H1 : 1 <= rv / mcs).
  { apply Qle_shift_div_l; [done |]. lra. }
  destruct (floor_log2_spec _ H1) as (Hd & Hlo & Hhi).
  split; [done |]. split; [done |].
  set (N := inject_Z (2 ^ floor_log2 (rv / mcs))) in *.
  set (r := rv / mcs) in *. clearbody N r. split; nra.
Qed.

Lemma derive_depth_nonneg rv mcs d :
  0 <= rv → derive_depth rv mcs = Ok d → (0 <= d)%Z.
Proof.
  intros Hrv Hd. destruct (Qlt_le_dec mcs rv) as [Hlt | Hle].
  - by destruct (derive_depth_computed _ _ _ Hrv Hlt Hd) as (_ & ? & _).
  - rewrite derive_depth_clamped in Hd by done. by injection Hd as <-.
Qed.

Lemma derive_grid_Ok pts scs rots mcs t :
  derive_grid pts scs rots mcs = Ok t →
  ∃ p ps,
    pts = p :: ps ∧
    derive_depth (bbox_range p ps) mcs = Ok (depth t) ∧
    n_cells t = derive_n_cells (depth t) ∧
    points t = pts ∧ scales t = scs ∧ rotations t = rots ∧
    min_cell_size t = mcs ∧ cells t = ∅ ∧ point_cells t = ∅ ∧
    grid_ok t (bbox_range p ps).
Proof.
  unfold derive_grid. destruct pts as [| p ps]; [done |]. simpl.
  fold (bbox_range p ps).
  destruct (derive_depth (bbox_range p ps) mcs) as [d |] eqn:Hd; [| done].
  simpl. intros [= <-]. exists p, ps. simpl.
  repeat (split; [done |]).
  pose proof (range_val_nonneg p ps) as Hrv. fold (bbox_range p ps) in Hrv.
  pose proof (derive_n_cells_pos d) as Hn.
  unfold grid_ok; simpl. split; [done |]. split; [done |]. split.
  - intros π Hπ. rewrite !axis_vmap, axis_vsub, !axis_vmap, axis_vadd by done.
    split; [field |]. 
    assert (¬ inject_Z (derive_n_cells d) == 0).
    { change 0 with (inject_Z 0). rewrite inject_Z_injective. lia. }
    field. done.
  - assert (¬ inject_Z (derive_n_cells d) == 0).
    { change 0 with (inject_Z 0). rewrite inject_Z_injective. lia. }
    rewrite (axis_vmap vx), (axis_vsub vx), !(axis_vmap vx), (axis_vadd vx)
      by (unfold is_axis; auto).
    field. done.
Qed.

End grid_facts.

(** ** Lists *)

Lemma list_remove_notin x l : x ∉ l → list_remove x l = l.
Proof.
  induction l as [| y l IH]; [done |]. intros Hx. simpl.
  apply not_elem_of_cons in Hx as [Hne Hx]. case_decide; [done |].
  by rewrite IH.
Qed.

Lemma elem_of_list_remove x y l :
  NoDup l → y ∈ list_remove x l ↔ y ≠ x ∧ y ∈ l.
Proof.
  induction 1 as [| z l Hz Hl IH]; simpl.
  - split; [by intros ?%elem_of_nil | by intros [_ ?%elem_of_nil]].
  - case_decide as Hxz.
    + subst z. rewrite elem_of_cons. split.
      * intros Hy. split; [by intros -> | by right].
      * by intros [Hne [-> | Hy]].
    + rewrite !elem_of_cons, IH. split.
      * intros [-> | [? ?]]; [by split; [| left] | by split; [| right]].
      * intros [Hne [-> | Hy]]; [by left | by right].
Qed.

Lemma NoDup_list_remove x l : NoDup l → NoDup (list_remove x l).
Proof.
  induction 1 as [| z l Hz Hl IH]; simpl; [constructor |].
  case_decide; [done |]. constructor; [| done].
  rewrite elem_of_list_remove by done. tauto.
Qed.

Lemma list_remove_app_last x l : x ∉ l → list_remove x (l ++ [x]) = l.
Proof.
  induction l as [| y l IH]; simpl; intros Hx.
  - by case_decide.
  - apply not_elem_of_cons in Hx as [Hne Hx]. case_decide; [done |].
    by rewrite IH.
Qed.

Lemma list_remove_Permutation x l : x ∈ l → list_remove x l ++ [x] ≡ₚ l.
Proof.
  induction l as [| y l IH]; simpl; [by intros ?%elem_of_nil |].
  intros Hx. case_decide as Hxy.
  - subst y. by rewrite <- Permutation_cons_append.
  - apply elem_of_cons in Hx as [-> | Hx]; [done |].
    simpl. by rewrite IH.
Qed.

(** ** The two loops over cells *)

Lemma register_in_cell_get (h : Z) (cs : gmap cell (list Z)) (c c' : cell) :
  default [] (register_in_cell h cs c !! c') =
  default [] (cs !! c') ++ (if decide (c' = c) then [h] else []).
Proof.
  unfold register_in_cell. destruct (cs !! c) as [l |] eqn:Hc.
  - rewrite Hc. case_decide as Hcc.
    + subst c'. by rewrite lookup_insert_eq, Hc.
    + rewrite lookup_insert_ne by done. by rewrite app_nil_r.
  - rewrite lookup_insert_eq. case_decide as Hcc.
    + subst c'. by rewrite lookup_insert_eq, Hc.
    + rewrite !lookup_insert_ne by done. by rewrite app_nil_r.
Qed.

Lemma foldl_register_get (h : Z) (l : list cell) :
  NoDup l → ∀ (cs : gmap cell (list Z)) (c' : cell),
  default [] (foldl (register_in_cell h) cs l !! c') =
  default [] (cs !! c') ++ (if decide (c' ∈ l) then [h] else []).
Proof.
  induction 1 as [| c l Hc Hl IH]; intros cs c'.
  - cbn [foldl]. destruct (decide (c' ∈ [])) as [Hin | _].
    + by apply elem_of_nil in Hin.
    + by rewrite app_nil_r.
  - cbn [foldl]. rewrite IH, register_in_cell_get, <- app_assoc. f_equal.
    destruct (decide (c' = c)) as [Heq | Hne];
      destruct (decide (c' ∈ l)) as [Hin | Hnin];
      destruct (decide (c' ∈ c :: l)) as [Hin' | Hnin'];
      try done; try (by subst);
      try (contradict Hnin'; subst; by (left || right)).
    apply elem_of_cons in Hin' as [? | ?]; done.
Qed.

Lemma unregister_from_cell_get (h : Z) (cs : gmap cell (list Z)) (c c' : cell) :
  default [] (unregister_from_cell h cs c !! c') =
  if decide (c' = c) then list_remove h (default [] (cs !! c'))
  else default [] (cs !! c').
Proof.
  unfold unregister_from_cell. destruct (cs !! c) as [l |] eqn:Hc.
  - destruct (decide (h ∈ l)) as [Hin | Hnin]; case_decide as Hcc.
    + subst c'. by rewrite lookup_insert_eq, Hc.
    + by rewrite lookup_insert_ne.
    + subst c'. rewrite Hc. simpl. by rewrite list_remove_notin.
    + done.
  - case_decide as Hcc; [| done]. subst c'. by rewrite Hc.
Qed.

Lemma foldl_unregister_get (h : Z) (l : list cell) :
  NoDup l → ∀ (cs : gmap cell (list Z)) (c' : cell),
  default [] (foldl (unregister_from_cell h) cs l !! c') =
  if decide (c' ∈ l) then list_remove h (default [] (cs !! c'))
  else default [] (cs !! c').
Proof.
  induction 1 as [| c l Hc Hl IH]; intros cs c'.
  - cbn [foldl]. destruct (decide (c' ∈ [])) as [Hin | _]; [| done].
    by apply elem_of_nil in Hin.
  - cbn [foldl]. rewrite IH, unregister_from_cell_get.
    destruct (decide (c' = c)) as [Heq | Hne];
      destruct (decide (c' ∈ l)) as [Hin | Hnin];
      destruct (decide (c' ∈ c :: l)) as [Hin' | Hnin'];
      try done; try (by subst);
      try (contradict Hnin'; subst; by (left || right)).
    apply elem_of_cons in Hin' as [? | ?]; done.
Qed.

(** ** The cell set of a point *)

Lemma elem_of_py_range x a b : x ∈ py_range a b ↔ a ≤ x < b.
Proof. unfold py_range. rewrite elem_of_seqZ. lia. Qed.

Lemma elem_of_cell_indices t p (c : cell) :
  c ∈ _get_cell_indices_for_point t p ↔
  let de := default_extent t in
  let gm := global_min t in
  let cs := cell_size t in
  cell_index t (vx p - de) (vx gm) (vx cs) ≤ c.1.1 ≤ cell_index t (vx p + de) (vx gm) (vx cs) ∧
  cell_index t (vy p - de) (vy gm) (vy cs) ≤ c.1.2 ≤ cell_index t (vy p + de) (vy gm) (vy cs) ∧
  cell_index t (vz p - de) (vz gm) (vz cs) ≤ c.2 ≤ cell_index t (vz p + de) (vz gm) (vz cs).
Proof.
  destruct c as [[ix iy] iz]. unfold _get_cell_indices_for_point.
  cbv [vx vy vz vmap fst snd]. rewrite list_elem_of_bind. split.
  - intros (x & Hx & Hix). apply list_elem_of_bind in Hx as (y & Hy & Hiy).
    apply list_elem_of_bind in Hy as (z & Hz & Hiz).
    apply list_elem_of_singleton in Hz as [= -> -> ->].
    apply elem_of_py_range in Hix, Hiy, Hiz. lia.
  - intros (Hx & Hy & Hz). exists ix.
    split; [| apply elem_of_py_range; lia].
    apply list_elem_of_bind. exists iy.
    split; [| apply elem_of_py_range; lia].
    apply list_elem_of_bind. exists iz.
    split; [by apply list_elem_of_singleton |].
    apply elem_of_py_range; lia.
Qed.

Lemma cell_indices_NoDup t p : NoDup (_get_cell_indices_for_point t p).
Proof.
  unfold _get_cell_indices_for_point, py_range.
  apply NoDup_bind; [| | apply NoDup_seqZ].
  - intros x1 x2 c _ _ H1 H2.
    apply list_elem_of_bind in H1 as (y1 & H1 & _).
    apply list_elem_of_bind in H1 as (z1 & H1 & _).
    apply list_elem_of_bind in H2 as (y2 & H2 & _).
    apply list_elem_of_bind in H2 as (z2 & H2 & _).
    apply list_elem_of_singleton in H1, H2. congruence.
  - intros x _. apply NoDup_bind; [| | apply NoDup_seqZ].
    + intros y1 y2 c _ _ H1 H2.
      apply list_elem_of_bind in H1 as (z1 & H1 & _).
      apply list_elem_of_bind in H2 as (z2 & H2 & _).
      apply list_elem_of_singleton in H1, H2. congruence.
    + intros y _. apply NoDup_bind; [| | apply NoDup_seqZ].
      * intros z1 z2 c _ _ H1 H2.
        apply list_elem_of_singleton in H1, H2. congruence.
      * intros z _. apply NoDup_singleton.
Qed.

(** The cell set reads the grid parameters only. *)
Lemma cell_indices_frame t t' p :
  grid_params t = grid_params t' →
  _get_cell_indices_for_point t p = _get_cell_indices_for_point t' p.
Proof.
  unfold grid_params. intros [= Hm HM Hd Hn Hc He].
  unfold _get_cell_indices_for_point, cell_index. by rewrite Hm, Hn, Hc, He.
Qed.

Lemma query_cell_frame t t' p :
  grid_params t = grid_params t' → query_cell t p = query_cell t' p.
Proof.
  unfold grid_params. intros [= Hm HM Hd Hn Hc He].
  unfold query_cell, query_index. by rewrite Hm, HM, Hn.
Qed.

(** ** What each method does to the two dictionaries *)

Lemma insert_point_cells t h p s r :
  point_cells (_insert_point t h p s r) =
  <[h := _get_cell_indices_for_point t p]> (point_cells t).
Proof. reflexivity. Qed.

Lemma insert_cells_get t h p s r c :
  cells_get (_insert_point t h p s r) c =
  cells_get t c ++
    (if decide (c ∈ _get_cell_indices_for_point t p) then [h] else []).
Proof.
  unfold cells_get, _insert_point. cbn [cells set_cells set_point_cells].
  apply foldl_register_get, cell_indices_NoDup.
Qed.

Lemma insert_point_cells_get t h p s r h' :
  point_cells_get (_insert_point t h p s r) h' =
  if decide (h' = h) then _get_cell_indices_for_point t p
  else point_cells_get t h'.
Proof.
  unfold point_cells_get. rewrite insert_point_cells. case_decide as Hh.
  - subst h'. by rewrite lookup_insert_eq.
  - by rewrite lookup_insert_ne.
Qed.

Lemma insert_grid_params t h p s r :
  grid_params (_insert_point t h p s r) = grid_params t.
Proof. reflexivity. Qed.

Lemma insert_points t h p s r : points (_insert_point t h p s r) = points t.
Proof. reflexivity. Qed.

Lemma insert_scales t h p s r : scales (_insert_point t h p s r) = scales t.
Proof. reflexivity. Qed.

Lemma insert_rotations t h p s r :
  rotations (_insert_point t h p s r) = rotations t.
Proof. reflexivity. Qed.

Lemma remove_point_cells t h :
  point_cells (remove_point t h) = delete h (point_cells t).
Proof.
  unfold remove_point. destruct (point_cells t !! h) eqn:Hh; [done |].
  symmetry. by apply delete_id.
Qed.

Lemma remove_cells_get t h c :
  NoDup (point_cells_get t h) →
  cells_get (remove_point t h) c =
  if decide (c ∈ point_cells_get t h) then list_remove h (cells_get t c)
  else cells_get t c.
Proof.
  unfold point_cells_get, remove_point, cells_get.
  destruct (point_cells t !! h) as [pcs |] eqn:Hh; simpl; intros Hnd.
  - by apply foldl_unregister_get.
  - destruct (decide (c ∈ [])) as [Hin | _]; [| done].
    by apply elem_of_nil in Hin.
Qed.

Lemma remove_point_cells_get t h h' :
  point_cells_get (remove_point t h) h' =
  if decide (h' = h) then [] else point_cells_get t h'.
Proof.
  unfold point_cells_get. rewrite remove_point_cells. case_decide as Hh.
  - subst h'. by rewrite lookup_delete_eq.
  - by rewrite lookup_delete_ne.
Qed.

Lemma remove_grid_params t h : grid_params (remove_point t h) = grid_params t.
Proof. unfold remove_point. by destruct (point_cells t !! h). Qed.

Lemma remove_points t h : points (remove_point t h) = points t.
Proof. unfold remove_point. by destruct (point_cells t !! h). Qed.

Lemma remove_scales t h : scales (remove_point t h) = scales t.
Proof. unfold remove_point. by destruct (point_cells t !! h). Qed.

Lemma remove_rotations t h : rotations (remove_point t h) = rotations t.
Proof. unfold remove_point. by destruct (point_cells t !! h). Qed.

(** ** Array stores *)

Lemma np_setitem_Ok {A} (l l' : list A) i x :
  np_setitem l i x = Ok l' →
  length l' = length l ∧
  - Z.of_nat (length l) ≤ i < Z.of_nat (length l).
Proof.
  unfold np_setitem. repeat case_decide; intros [= <-];
    rewrite length_insert; lia.
Qed.


Lemma np_getitem_nonneg {A} (l : list A) i x :
  0 ≤ i → np_getitem l i = Ok x ↔ l !! Z.to_nat i = Some x.
Proof.
  intros Hi. unfold np_getitem. rewrite (decide_True (P := 0 ≤ i)) by done.
  case_decide as Hr.
  - destruct (l !! Z.to_nat i); split; congruence.
  - split; [done |]. intros Hl%lookup_lt_Some. lia.
Qed.

Lemma np_getitem_Ok_range {A} (l : list A) i x :
  np_getitem l i = Ok x →
  - Z.of_nat (length l) ≤ i < Z.of_nat (length l).
Proof. unfold np_getitem. repeat case_decide; intros; (done || lia). Qed.

(** ** The invariant *)

Lemma index_ok_stores t t' :
  cells t' = cells t → point_cells t' = point_cells t →
  (length (points t) ≤ length (points t'))%nat →
  index_ok t → index_ok t'.
Proof.
  intros Hc Hp Hl [H1 H2 H3 H4].
  unfold consistent, handles_in_range, cells_get, point_cells_get in *.
  split; unfold consistent, handles_in_range, cells_get, point_cells_get;
    rewrite ?Hc, ?Hp; try done.
  intros h Hh. specialize (H4 h Hh). lia.
Qed.

Lemma unregistered_nowhere t h c :
  consistent t → point_cells t !! h = None → h ∉ cells_get t c.
Proof.
  intros Hcon Hh Hin. apply Hcon in Hin. unfold point_cells_get in Hin.
  rewrite Hh in Hin. by apply elem_of_nil in Hin.
Qed.

Lemma insert_index_ok t h p s r :
  index_ok t → point_cells t !! h = None →
  - Z.of_nat (length (points t)) ≤ h < Z.of_nat (length (points t)) →
  index_ok (_insert_point t h p s r).
Proof.
  intros [Hcon Hnd Hpnd Hr] Hh Hrange. split.
  - intros h' c. rewrite insert_cells_get, insert_point_cells_get.
    rewrite elem_of_app. destruct (decide (h' = h)) as [-> | Hne].
    + split.
      * intros [Hin | Hin]; [by apply unregistered_nowhere in Hin |].
        by case_decide; [| apply elem_of_nil in Hin].
      * intros Hin. right. rewrite decide_True by done. left.
    + rewrite <- (Hcon h' c). split; [| by left].
      intros [Hin | Hin]; [done |].
      case_decide; [| by apply elem_of_nil in Hin].
      by apply list_elem_of_singleton in Hin.
  - intros c. rewrite insert_cells_get. case_decide; [| by rewrite app_nil_r].
    apply NoDup_app. split; [done |]. split; [| apply NoDup_singleton].
    intros x Hx ->%list_elem_of_singleton. by apply unregistered_nowhere in Hx.
  - intros h'. rewrite insert_point_cells_get.
    case_decide; [apply cell_indices_NoDup | apply Hpnd].
  - intros h'. rewrite insert_point_cells, insert_points.
    destruct (decide (h' = h)) as [-> | Hne]; [done |].
    rewrite lookup_insert_ne by done. apply Hr.
Qed.

Lemma remove_index_ok t h : index_ok t → index_ok (remove_point t h).
Proof.
  intros [Hcon Hnd Hpnd Hr]. split.
  - intros h' c. rewrite remove_cells_get, remove_point_cells_get by done.
    destruct (decide (h' = h)) as [-> | Hne].
    + split; [| by intros ?%elem_of_nil].
      case_decide as Hc.
      * rewrite elem_of_list_remove by done. tauto.
      * intros Hin. by apply Hcon in Hin.
    + rewrite <- (Hcon h' c). case_decide; [| done].
      rewrite elem_of_list_remove by done. tauto.
  - intros c. rewrite remove_cells_get by done.
    case_decide; [by apply NoDup_list_remove | done].
  - intros h'. rewrite remove_point_cells_get.
    case_decide; [constructor | apply Hpnd].
  - intros h'. rewrite remove_point_cells, remove_points.
    destruct (decide (h' = h)) as [-> | Hne].
    + rewrite lookup_delete_eq. by intros [? ?].
    + rewrite lookup_delete_ne by done. apply Hr.
Qed.

Lemma update_point_index_ok t h p s r :
  index_ok t → index_ok (update_point t h p s r).1.
Proof.
  intros Hok%(remove_index_ok t h). unfold update_point.
  pose proof (remove_point_cells t h) as Hpc.
  set (t1 := remove_point t h) in *. clearbody t1.
  destruct (np_setitem (points t1) h p) as [ps |] eqn:Hps; [| exact Hok].
  apply np_setitem_Ok in Hps as [Hlen Hrange].
  assert (Hok2 : index_ok (set_points t1 ps)).
  { apply (index_ok_stores t1); [done | done | simpl; lia | done]. }
  destruct (np_setitem _ h s) as [ss |]; [| exact Hok2].
  assert (Hok3 : index_ok (set_scales (set_points t1 ps) ss)).
  { by apply (index_ok_stores (set_points t1 ps)). }
  destruct (np_setitem _ h r) as [rs |]; [| exact Hok3].
  cbn [fst]. apply insert_index_ok.
  - by apply (index_ok_stores (set_scales (set_points t1 ps) ss)).
  - cbn. rewrite Hpc. apply lookup_delete_eq.
  - cbn. lia.
Qed.

Lemma insert_point_index_ok t p s r :
  index_ok t → index_ok (insert_point t p s r).1.
Proof.
  intros Hok. unfold insert_point. cbn [fst]. apply insert_index_ok.
  - apply (index_ok_stores t); [done | done | | done].
    cbn. rewrite length_app. lia.
  - cbn. destruct (point_cells t !! _) eqn:Hh; [| done].
    pose proof (ok_handles t Hok _ (mk_is_Some _ _ Hh)). lia.
  - cbn. rewrite length_app. simpl. lia.
Qed.

Lemma after_call_index_ok t c : index_ok t → index_ok (after_call t c).
Proof.
  destruct c; simpl; intros Hok;
    [by apply insert_point_index_ok | by apply update_point_index_ok
    | by apply remove_index_ok | done | done].
Qed.

Lemma after_calls_index_ok cs : ∀ t, index_ok t → index_ok (after_calls t cs).
Proof.
  unfold after_calls. induction cs as [| c cs IH]; intros t Hok; [done |].
  simpl. by apply IH, after_call_index_ok.
Qed.

(** ** The grid parameters never change *)

Lemma update_grid_params t h p s r :
  grid_params (update_point t h p s r).1 = grid_params t.
Proof.
  unfold update_point. rewrite <- (remove_grid_params t h).
  destruct (np_setitem _ h p); [| done].
  destruct (np_setitem _ h s); [| done].
  by destruct (np_setitem _ h r).
Qed.

Lemma insert_point_grid_params t p s r :
  grid_params (insert_point t p s r).1 = grid_params t.
Proof. reflexivity. Qed.

Lemma after_call_grid_params t c : grid_params (after_call t c) = grid_params t.
Proof.
  destruct c; simpl;
    [apply insert_point_grid_params | apply update_grid_params
    | apply remove_grid_params | done | done].
Qed.

Lemma after_calls_grid_params cs :
  ∀ t, grid_params (after_calls t cs) = grid_params t.
Proof.
  unfold after_calls. induction cs as [| c cs IH]; intros t; [done |].
  simpl. by rewrite IH, after_call_grid_params.
Qed.

Lemma grid_ok_frame t t' rv :
  grid_params t = grid_params t' → grid_ok t rv → grid_ok t' rv.
Proof.
  unfold grid_params, grid_ok. intros [= Hm HM Hd Hn Hc He].
  by rewrite Hm, HM, Hn, Hc, He.
Qed.

(** ** The insertion loop of [__init__] *)

Lemma build_index_spec idx : ∀ t t',
  build_index t idx = Ok t' →
  index_ok t → NoDup idx → (∀ i, i ∈ idx → point_cells t !! i = None) →
  index_ok t' ∧
  points t' = points t ∧ scales t' = scales t ∧ rotations t' = rotations t ∧
  grid_params t' = grid_params t ∧
  (∀ h, h ∉ idx → point_cells t' !! h = point_cells t !! h) ∧
  (∀ i, i ∈ idx → ∃ p s r,
     np_getitem (points t) i = Ok p ∧ np_getitem (scales t) i = Ok s ∧
     np_getitem (rotations t) i = Ok r ∧
     point_cells t' !! i = Some (_get_cell_indices_for_point t p)).
Proof.
  induction idx as [| i idx IH]; intros t t' Hb Hok Hnd Hfresh.
  - injection Hb as <-. do 6 (split; [done |]).
    intros i Hi. by apply elem_of_nil in Hi.
  - cbn [build_index] in Hb.
    destruct (np_getitem (points t) i) as [p |] eqn:Hp; [| done].
    destruct (np_getitem (scales t) i) as [s |] eqn:Hs; [| done].
    destruct (np_getitem (rotations t) i) as [r |] eqn:Hr; [| done].
    cbn in Hb. apply NoDup_cons in Hnd as [Hi Hnd].
    apply IH in Hb as (Hok' & Hps & Hss & Hrs & Hg & Hother & Hreg).
    + split; [done |]. repeat (split; [done |]). split.
      * intros h Hh. apply not_elem_of_cons in Hh as [Hne Hh].
        rewrite (Hother h Hh), insert_point_cells.
        by rewrite lookup_insert_ne.
      * intros j Hj. apply elem_of_cons in Hj as [-> | Hj].
        -- exists p, s, r. repeat (split; [done |]).
           rewrite (Hother i Hi), insert_point_cells. apply lookup_insert_eq.
        -- destruct (Hreg j Hj) as (p' & s' & r' & ? & ? & ? & Hj').
           by exists p', s', r'.
    + apply insert_index_ok; [done | apply Hfresh; left |].
      by apply np_getitem_Ok_range in Hp.
    + done.
    + intros j Hj. rewrite insert_point_cells, lookup_insert_ne.
      * apply Hfresh. by right.
      * intros ->. done.
Qed.

Lemma empty_index_ok t : cells t = ∅ → point_cells t = ∅ → index_ok t.
Proof.
  intros Hc Hp. split.
  - intros h c. unfold cells_get, point_cells_get.
    rewrite Hc, Hp, !lookup_empty. simpl.
    split; by intros ?%elem_of_nil.
  - intros c. unfold cells_get. rewrite Hc, lookup_empty. constructor.
  - intros h. unfold point_cells_get. rewrite Hp, lookup_empty. constructor.
  - intros h. rewrite Hp, lookup_empty. by intros [? ?].
Qed.

(** What a successful [__init__] returns. *)
Lemma construct_Ok pts scs rots mcs t :
  __init__ pts scs rots mcs = Ok t →
  ∃ p ps,
    pts = p :: ps ∧
    derive_depth (bbox_range p ps) mcs = Ok (depth t) ∧
    n_cells t = derive_n_cells (depth t) ∧
    grid_ok t (bbox_range p ps) ∧
    points t = pts ∧ scales t = scs ∧ rotations t = rots ∧
    index_ok t ∧ stores_ok t ∧
    (∀ h, is_Some (point_cells t !! h) → 0 ≤ h < Z.of_nat (length pts)) ∧
    (∀ h q, 0 ≤ h → pts !! Z.to_nat h = Some q →
       point_cells t !! h = Some (_get_cell_indices_for_point t q)).
Proof.
  unfold __init__. destruct (derive_grid pts scs rots mcs) as [t0 |] eqn:Hg;
    [| done].
  cbn. intros Hb.
  apply derive_grid_Ok in Hg
    as (p & ps & -> & Hd & Hn & Hpts & Hscs & Hrots & _ & Hc & Hpc & Hgrid).
  apply build_index_spec in Hb
    as (Hok & Hps & Hss & Hrs & Hgp & Hother & Hreg);
    [| by apply empty_index_ok | apply NoDup_seqZ
     | by intros; rewrite Hpc, lookup_empty].
  exists p, ps. split; [done |].
  assert (Hgp' := Hgp). unfold grid_params in Hgp'.
  injection Hgp' as Hm HM Hdd Hnn Hcc Hee.
  split; [by rewrite Hdd |]. split; [by rewrite Hnn, Hdd |].
  split; [by apply (grid_ok_frame t0) |].
  rewrite Hps, Hss, Hrs, Hpts, Hscs, Hrots. repeat (split; [done |]).
  rewrite Hpts in Hreg, Hother. split; [| split].
  - destruct (Hreg (Z.of_nat (length ps))) as (_ & s & r & _ & Hs & Hr & _).
    { apply elem_of_py_range. simpl. lia. }
    apply np_getitem_Ok_range in Hs, Hr.
    unfold stores_ok. rewrite Hps, Hss, Hrs, Hpts, Hscs, Hrots in *.
    simpl in *. lia.
  - intros h Hh. destruct (decide (0 ≤ h < Z.of_nat (length (p :: ps))))
      as [| Hout]; [done | exfalso].
    rewrite Hother, Hpc, lookup_empty in Hh; [by destruct Hh |].
    rewrite elem_of_py_range. lia.
  - intros h q Hh Hq.
    destruct (Hreg h) as (q' & _ & _ & Hq' & _ & _ & Hreg').
    { apply elem_of_py_range. apply lookup_lt_Some in Hq. lia. }
    apply np_getitem_nonneg in Hq'; [| done].
    rewrite Hreg'. f_equal. rewrite Hq in Hq'. injection Hq' as ->.
    symmetry. by apply cell_indices_frame.
Qed.

Lemma construct_index_ok pts scs rots mcs t cs :
  __init__ pts scs rots mcs = Ok t → index_ok (after_calls t cs).
Proof.
  intros Hc. apply construct_Ok in Hc as (? & ? & ?).
  apply after_calls_index_ok. tauto.
Qed.

(** ** The grid *)

Lemma init_range_val_cons p ps : init_range_val (p :: ps) = Ok (bbox_range p ps).
Proof. reflexivity. Qed.

Lemma inject_Z_pos n : 1 ≤ n → (0 < inject_Z n)%Q.
Proof. intros Hn. change 0%Q with (inject_Z 0). rewrite <- Zlt_Qlt. lia. Qed.

Lemma floor_astype_int_nonfinite x :
  is_finite x = false → floor_astype_int x = int_of_nonfinite.
Proof. by destruct x. Qed.


(** C6: no call changes [global_min], [global_max], [depth], [n_cells],
    [cell_size] or [default_extent]. *)
Theorem grid_parameters_frame t cs :
  grid_params (after_calls t cs) = grid_params t.
Proof. apply after_calls_grid_params. Qed.

(** C1: on every object built by [__init__], and after every sequence
    of calls on it, a handle is in the list of a cell exactly when the
    cell is in the list of the handle. *)
Theorem reverse_index_consistency pts scs rots mcs t0 cs :
  __init__ pts scs rots mcs = Ok t0 →
  ∀ h c,
    h ∈ cells_get (after_calls t0 cs) c ↔
    c ∈ point_cells_get (after_calls t0 cs) h.
Proof.
  intros Hc. apply (ok_consistent _ (construct_index_ok _ _ _ _ _ cs Hc)).
Qed.

(** ** The arrays *)

Lemma insert_point_stores_ok t p s r :
  stores_ok t → stores_ok (insert_point t p s r).1.
Proof.
  unfold stores_ok, insert_point. cbn. rewrite !length_app. simpl. lia.
Qed.

Lemma remove_stores_ok t h : stores_ok t → stores_ok (remove_point t h).
Proof.
  unfold stores_ok. by rewrite remove_points, remove_scales, remove_rotations.
Qed.

Lemma update_point_stores_ok t h p s r :
  stores_ok t → stores_ok (update_point t h p s r).1.
Proof.
  intros Hs%(remove_stores_ok t h). unfold update_point.
  set (t1 := remove_point t h) in *. clearbody t1. unfold stores_ok in *.
  destruct (np_setitem (points t1) h p) as [ps |] eqn:Hps; [| exact Hs].
  apply np_setitem_Ok in Hps as [Hps _].
  destruct (np_setitem _ h s) as [ss |] eqn:Hss; [| cbn; lia].
  apply np_setitem_Ok in Hss as [Hss _]. cbn in Hss.
  destruct (np_setitem _ h r) as [rs |] eqn:Hrs; [| cbn; lia].
  apply np_setitem_Ok in Hrs as [Hrs _]. cbn in Hrs. cbn. lia.
Qed.

Lemma after_calls_stores_ok cs : ∀ t, stores_ok t → stores_ok (after_calls t cs).
Proof.
  unfold after_calls. induction cs as [| c cs IH]; intros t Hs; [done |].
  simpl. apply IH. destruct c; simpl;
    [by apply insert_point_stores_ok | by apply update_point_stores_ok
    | by apply remove_stores_ok | done | done].
Qed.

(** ** Update, insert then remove, update after remove *)

Lemma np_setitem_total {A} (l : list A) i x n :
  - Z.of_nat n ≤ i < Z.of_nat n → (n ≤ length l)%nat →
  ∃ l', np_setitem l i x = Ok l' ∧ length l' = length l.
Proof.
  intros Hi Hn. unfold np_setitem.
  destruct (decide (0 ≤ i < Z.of_nat (length l))).
  - eexists. split; [done |]. apply length_insert.
  - rewrite decide_True by lia. eexists. split; [done |]. apply length_insert.
Qed.

(** C3, as the code has it: [update_point] on a handle that is
    registered at the cell set of the position given (the position of its
    last insertion or update) raises nothing, keeps the three arrays at
    their lengths and leaves the reverse index as it was; in every cell of
    the handle, the handle moves to the end of the list, so the list keeps
    its members and not always their order. *)
Theorem update_same_position pts scs rots mcs t0 cs h p s r :
  __init__ pts scs rots mcs = Ok t0 →
  point_cells (after_calls t0 cs) !! h =
    Some (_get_cell_indices_for_point (after_calls t0 cs) p) →
  ∃ t',
    update_point (after_calls t0 cs) h p s r = (t', Ok ()) ∧
    length (points t') = length (points (after_calls t0 cs)) ∧
    length (scales t') = length (scales (after_calls t0 cs)) ∧
    length (rotations t') = length (rotations (after_calls t0 cs)) ∧
    point_cells t' = point_cells (after_calls t0 cs) ∧
    ∀ c,
      cells_get t' c ≡ₚ cells_get (after_calls t0 cs) c ∧
      cells_get t' c =
        if decide (h ∈ cells_get (after_calls t0 cs) c)
        then list_remove h (cells_get (after_calls t0 cs) c) ++ [h]
        else cells_get (after_calls t0 cs) c.
Proof.
  intros Hc Hh.
  pose proof (construct_index_ok _ _ _ _ _ cs Hc) as Hiok.
  assert (Hst : stores_ok (after_calls t0 cs)).
  { apply after_calls_stores_ok.
    apply construct_Ok in Hc. destruct Hc as (? & ? & ?). tauto. }
  set (t := after_calls t0 cs) in *. clearbody t. destruct Hst as [Hss Hrs].
  pose proof (ok_handles _ Hiok h (mk_is_Some _ _ Hh)) as Hrange.
  unfold update_point.
  destruct (np_setitem_total (points (remove_point t h)) h p
              (length (points t))) as (ps & -> & Hlp);
    [done | by rewrite remove_points |].
  destruct (np_setitem_total (scales (set_points (remove_point t h) ps)) h s
              (length (points t))) as (ss & -> & Hls);
    [done | cbn; by rewrite remove_scales |].
  destruct (np_setitem_total
              (rotations (set_scales (set_points (remove_point t h) ps) ss))
              h r (length (points t))) as (rs & -> & Hlr);
    [done | cbn; by rewrite remove_rotations |].
  cbn in Hls, Hlr. rewrite remove_points in Hlp.
  rewrite remove_scales in Hls. rewrite remove_rotations in Hlr.
  eexists. split; [reflexivity |].
  rewrite insert_points, insert_scales, insert_rotations. cbn [points scales
    rotations set_rotations set_scales set_points].
  do 3 (split; [done |]).
  set (t4 := set_rotations _ rs).
  assert (Hcells : _get_cell_indices_for_point t4 p
                   = _get_cell_indices_for_point t p).
  { apply cell_indices_frame. unfold t4. cbn. apply remove_grid_params. }
  set (pcs := _get_cell_indices_for_point t p) in *.
  split.
  - rewrite insert_point_cells, Hcells. unfold t4.
    cbn [point_cells set_rotations set_scales set_points].
    rewrite remove_point_cells, insert_delete_eq. by apply insert_id.
  - intros c. rewrite insert_cells_get, Hcells.
    change (cells_get t4 c) with (cells_get (remove_point t h) c).
    rewrite remove_cells_get by apply (ok_point_cells_nodup _ Hiok).
    assert (Hget : point_cells_get t h = pcs)
      by (unfold point_cells_get; by rewrite Hh).
    assert (Hmem : c ∈ pcs ↔ h ∈ cells_get t c).
    { by rewrite (ok_consistent _ Hiok h c), Hget. }
    rewrite Hget.
    destruct (decide (c ∈ pcs)) as [Hin | Hnin].
    + rewrite decide_True by (by apply Hmem).
      split; [| done]. apply list_remove_Permutation. by apply Hmem.
    + rewrite decide_False by (by rewrite <- Hmem).
      by rewrite app_nil_r.
Qed.

(** C5: [insert_point] gives the next index as handle, new to both
    dictionaries, and registers it; [remove_point] on that handle then
    leaves the reverse index without it and as it was before, and every
    cell list as it was before. *)
Theorem insert_then_remove pts scs rots mcs t0 cs p s r :
  __init__ pts scs rots mcs = Ok t0 →
  ∃ t1 h,
    insert_point (after_calls t0 cs) p s r = (t1, h) ∧
    h = Z.of_nat (length (points (after_calls t0 cs))) ∧
    point_cells (after_calls t0 cs) !! h = None ∧
    point_cells t1 !! h =
      Some (_get_cell_indices_for_point (after_calls t0 cs) p) ∧
    (∀ c, c ∈ _get_cell_indices_for_point (after_calls t0 cs) p →
       h ∈ cells_get t1 c) ∧
    point_cells (remove_point t1 h) !! h = None ∧
    (∀ c, h ∉ cells_get (remove_point t1 h) c) ∧
    (∀ c, cells_get (remove_point t1 h) c = cells_get (after_calls t0 cs) c) ∧
    point_cells (remove_point t1 h) = point_cells (after_calls t0 cs).
Proof.
  intros Hc. pose proof (construct_index_ok _ _ _ _ _ cs Hc) as Hiok.
  set (t := after_calls t0 cs) in *. clearbody t.
  pose proof (insert_point_index_ok t p s r Hiok) as Hiok1.
  unfold insert_point in *. cbn [fst] in Hiok1.
  set (h := Z.of_nat (length (points t))) in *.
  eexists _, h. split; [reflexivity |]. split; [done |].
  assert (Hfresh : point_cells t !! h = None).
  { destruct (point_cells t !! h) eqn:Hh; [| done].
    pose proof (ok_handles t Hiok _ (mk_is_Some _ _ Hh)). lia. }
  split; [done |].
  set (t3 := set_rotations _ _) in *.
  assert (Hfr : _get_cell_indices_for_point t3 p = _get_cell_indices_for_point t p)
    by (by apply cell_indices_frame).
  assert (Hpc1 : point_cells_get (_insert_point t3 h p s r) h =
                 _get_cell_indices_for_point t p).
  { rewrite insert_point_cells_get, decide_True by done. done. }
  split; [rewrite insert_point_cells, Hfr; apply lookup_insert_eq |].
  split.
  { intros c Hin. rewrite insert_cells_get, Hfr, decide_True by done.
    apply elem_of_app. right. left. }
  split; [rewrite remove_point_cells; apply lookup_delete_eq |].
  assert (Hcells : ∀ c,
    cells_get (remove_point (_insert_point t3 h p s r) h) c = cells_get t c).
  { intros c. rewrite remove_cells_get by apply (ok_point_cells_nodup _ Hiok1).
    rewrite Hpc1, insert_cells_get, Hfr. change (cells_get t3 c) with (cells_get t c).
    case_decide; [| by rewrite app_nil_r].
    apply list_remove_app_last. by apply unregistered_nowhere; [apply Hiok |]. }
  split.
  { intros c. rewrite Hcells. by apply unregistered_nowhere; [apply Hiok |]. }
  split; [done |].
  rewrite remove_point_cells, insert_point_cells.
  rewrite delete_insert_eq. by apply delete_id.
Qed.


(** ** When [__init__] returns and when it raises *)

Lemma derive_depth_total rv mcs :
  (0 <= rv)%Q → (0 < mcs)%Q ∨ (rv <= mcs)%Q → is_Ok (derive_depth rv mcs).
Proof.
  intros Hrv Hm. destruct (Qlt_le_dec mcs rv) as [Hlt | Hle].
  - destruct Hm as [Hm | Hm]; [| lra].
    unfold derive_depth. rewrite (proj2 (Qltb_lt _ _) Hlt).
    rewrite np_div_nonzero by lra. cbn [int_floor_log2].
    assert (Hq : (0 < rv / mcs)%Q) by (apply Qlt_shift_div_l; lra).
    rewrite (proj2 (Qltb_lt _ _) Hq). by eexists.
  - rewrite derive_depth_clamped by done. by eexists.
Qed.

Lemma derive_depth_rejects rv mcs :
  (0 <= rv)%Q → (mcs < rv)%Q → (mcs <= 0)%Q → is_Err (derive_depth rv mcs).
Proof.
  intros Hrv Hlt Hm. destruct (derive_depth rv mcs) as [d | e] eqn:Hd.
  - destruct (derive_depth_computed _ _ _ Hrv Hlt Hd) as [Hpos _]. lra.
  - by exists e.
Qed.

Lemma build_index_total idx : ∀ t,
  (∀ i, i ∈ idx →
     0 ≤ i < Z.of_nat (length (points t)) ∧
     i < Z.of_nat (length (scales t)) ∧
     i < Z.of_nat (length (rotations t))) →
  is_Ok (build_index t idx).
Proof.
  induction idx as [| i idx IH]; intros t Hidx; [by eexists |].
  cbn [build_index].
  destruct (Hidx i) as (Hp & Hs & Hr); [left |].
  destruct (lookup_lt_is_Some_2 (points t) (Z.to_nat i)) as [p Hp']; [lia |].
  destruct (lookup_lt_is_Some_2 (scales t) (Z.to_nat i)) as [s Hs']; [lia |].
  destruct (lookup_lt_is_Some_2 (rotations t) (Z.to_nat i)) as [r Hr']; [lia |].
  apply np_getitem_nonneg in Hp', Hs', Hr'; [| lia ..].
  rewrite Hp', Hs', Hr'. cbn. apply IH.
  intros j Hj. apply Hidx. by right.
Qed.

Lemma construct_total p ps scs rots mcs :
  (0 < mcs)%Q ∨ (bbox_range p ps <= mcs)%Q →
  (length (p :: ps) ≤ length scs)%nat → (length (p :: ps) ≤ length rots)%nat →
  is_Ok (__init__ (p :: ps) scs rots mcs).
Proof.
  intros Hm Hs Hr. unfold __init__.
  destruct (derive_depth_total (bbox_range p ps) mcs) as [d Hd];
    [apply range_val_nonneg | done |].
  unfold derive_grid. cbn [np_min_axis0 np_max_axis0]. cbn.
  fold (bbox_range p ps). rewrite Hd. cbn.
  apply build_index_total. intros i Hi%elem_of_py_range.
  cbn [points scales rotations] in *. simpl in *. lia.
Qed.

(** Arrays of scales or rotations shorter than the positions make the
    insertion loop raise; longer ones are not looked at. *)
Lemma construct_short_arrays pts scs rots mcs :
  (length scs < length pts)%nat ∨ (length rots < length pts)%nat →
  is_Err (__init__ pts scs rots mcs).
Proof.
  intros Hlen. destruct (__init__ pts scs rots mcs) as [t | e] eqn:Hc;
    [| by exists e].
  apply construct_Ok in Hc
    as (p & ps & -> & _ & _ & _ & Hp & Hs & Hr & _ & [Hs' Hr'] & _).
  rewrite Hp, Hs in Hs'. rewrite Hp, Hr in Hr'. lia.
Qed.

(** C7, as the code has it: [__init__] raises before it creates the two
    dictionaries when the positions are empty, when [min_cell_size] is
    negative, and when [min_cell_size] is zero and two positions differ.
    (The lengths of the three arrays are not compared, and a zero
    [min_cell_size] passes when all positions are the same point.) *)
Theorem construct_input_errors pts scs rots mcs :
  pts = [] ∨ (mcs < 0)%Q ∨
    ((mcs == 0)%Q ∧ ∃ a b, a ∈ pts ∧ b ∈ pts ∧ ¬ vec_eq a b) →
  is_Err (derive_grid pts scs rots mcs) ∧
  is_Err (__init__ pts scs rots mcs).
Proof.
  intros Hin.
  assert (Hg : is_Err (derive_grid pts scs rots mcs)).
  { destruct pts as [| p ps]; [by exists ValueError |].
    destruct Hin as [Hnil | Hin]; [done |].
    assert (Hd : is_Err (derive_depth (bbox_range p ps) mcs)).
    { pose proof (range_val_nonneg p ps) as Hrv. fold (bbox_range p ps) in Hrv.
      destruct Hin as [Hneg | [Hz Hdiff]].
      - apply derive_depth_rejects; [done | lra | lra].
      - apply range_val_pos_iff in Hdiff. fold (bbox_range p ps) in Hdiff.
        apply derive_depth_rejects; [done | lra | lra]. }
    destruct Hd as [e Hd]. exists e. unfold derive_grid.
    cbn [np_min_axis0 np_max_axis0]. cbn. fold (bbox_range p ps).
    by rewrite Hd. }
  split; [done |]. destruct Hg as [e Hg]. exists e.
  unfold __init__. by rewrite Hg.
Qed.

Lemma np_mul_int_keeps_nonfinite x n :
  is_finite x = false → is_finite (np_mul_int x n) = false.
Proof. destruct x; simpl; try done; intros _; by repeat case_decide. Qed.

Lemma py_range_single k : py_range k (k + 1) = [k].
Proof.
  unfold py_range. replace (k + 1 - k) with 1 by lia.
  change (seqZ k 1) with [0 + k]. by rewrite Z.add_0_l.
Qed.

(** A zero divisor goes through the division, the cast and the clip. *)
Lemma cell_index_zero_divisor t x gm csz :
  (csz == 0)%Q → cell_index t x gm csz = nonfinite_index t.
Proof.
  intros Hz. unfold cell_index, cell_quotient, nonfinite_index.
  by rewrite floor_astype_int_nonfinite by (by apply np_div_zero).
Qed.

Lemma query_index_zero_edge t x gm gM :
  (gM - gm == 0)%Q → query_index t x gm gM = nonfinite_index t.
Proof.
  intros Hz. unfold query_index, rel_pos, nonfinite_index.
  rewrite floor_astype_int_nonfinite; [done |].
  by apply np_mul_int_keeps_nonfinite, np_div_zero.
Qed.

(** C10: nothing guards the divisions: on any object whose [cell_size]
    is zero the cell set of every position is the one cell whose indices
    come from casting and clipping a quotient by zero, and likewise for
    [query_cell] when [global_max - global_min] is zero.  The cell size
    of a constructed grid is positive only if two initial positions
    differ; when all are the same point (and [min_cell_size] is not
    negative) [__init__] returns an object with [range_val = 0], one cell
    per axis, [cell_size = 0] and [default_extent = 0], on which every
    cell-index computation, for every position and after every sequence
    of calls, divides by zero. *)
Theorem degenerate_grid pts scs rots mcs :
  (∀ t p,
     (∀ π, is_axis π → (π (cell_size t) == 0)%Q) →
     _get_cell_indices_for_point t p =
       [(nonfinite_index t, nonfinite_index t, nonfinite_index t)]) ∧
  (∀ t p,
     (∀ π, is_axis π → (π (global_max t) - π (global_min t) == 0)%Q) →
     query_cell t p = (nonfinite_index t, nonfinite_index t, nonfinite_index t)) ∧
  (∀ t π, __init__ pts scs rots mcs = Ok t → is_axis π →
     (0 < π (cell_size t))%Q → ∃ a b, a ∈ pts ∧ b ∈ pts ∧ ¬ vec_eq a b) ∧
  (pts ≠ [] → (∀ a b, a ∈ pts → b ∈ pts → vec_eq a b) →
   in_float_range pts → (0 <= mcs)%Q →
   (length pts ≤ length scs)%nat → (length pts ≤ length rots)%nat →
   ∃ rv t,
     init_range_val pts = Ok rv ∧ (rv == 0)%Q ∧
     __init__ pts scs rots mcs = Ok t ∧
     depth t = 0 ∧ n_cells t = 1 ∧
     (∀ π, is_axis π → (π (cell_size t) == 0)%Q) ∧
     (∀ π, is_axis π → (π (global_max t) - π (global_min t) == 0)%Q) ∧
     (default_extent t == 0)%Q ∧
     ∀ cs p,
       _get_cell_indices_for_point (after_calls t cs) p =
         [(nonfinite_index (after_calls t cs),
           nonfinite_index (after_calls t cs),
           nonfinite_index (after_calls t cs))] ∧
       query_cell (after_calls t cs) p =
         (nonfinite_index (after_calls t cs),
          nonfinite_index (after_calls t cs),
          nonfinite_index (after_calls t cs)) ∧
       nonfinite_index (after_calls t cs) = 0 ∧
       ∀ π x, is_axis π →
         is_finite (cell_quotient x (π (global_min (after_calls t cs)))
                      (π (cell_size (after_calls t cs)))) = false ∧
         is_finite (rel_pos x (π (global_min (after_calls t cs)))
                      (π (global_max (after_calls t cs)))) = false).
Proof.
  assert (Hcells : ∀ t p,
    (∀ π, is_axis π → (π (cell_size t) == 0)%Q) →
    _get_cell_indices_for_point t p =
      [(nonfinite_index t, nonfinite_index t, nonfinite_index t)]).
  { intros t p Hz. unfold _get_cell_indices_for_point.
    rewrite !cell_index_zero_divisor by (apply Hz; unfold is_axis; auto).
    by rewrite py_range_single. }
  assert (Hquery : ∀ t p,
    (∀ π, is_axis π → (π (global_max t) - π (global_min t) == 0)%Q) →
    query_cell t p = (nonfinite_index t, nonfinite_index t, nonfinite_index t)).
  { intros t p Hz. unfold query_cell.
    by rewrite !query_index_zero_edge by (apply Hz; unfold is_axis; auto). }
  split; [done |]. split; [done |]. split.
  - intros t π Hc Hπ Hpos.
    apply construct_Ok in Hc as (p & ps & -> & _ & _ & Hg & _).
    apply range_val_pos_iff. fold (bbox_range p ps).
    destruct Hg as (Hrv & Hn & Hax & _). destruct (Hax π Hπ) as [_ Hcs].
    rewrite Hcs in Hpos. pose proof (inject_Z_pos _ Hn) as HN.
    assert (bbox_range p ps == bbox_range p ps / inject_Z (n_cells t)
              * inject_Z (n_cells t))%Q by (field; lra). nra.
  - intros Hne Hsame _ Hm Hs Hr. destruct pts as [| p ps]; [done |].
    assert (Hrv0 : (bbox_range p ps == 0)%Q).
    { pose proof (range_val_nonneg p ps) as Hrv. fold (bbox_range p ps) in Hrv.
      destruct (Qlt_le_dec 0 (bbox_range p ps)) as [Hpos | Hle]; [| lra].
      apply range_val_pos_iff in Hpos as (a & b & Ha & Hb & Hab).
      by destruct Hab; apply Hsame. }
    destruct (construct_total p ps scs rots mcs) as [t Hc];
      [right; lra | done | done |].
    exists (bbox_range p ps), t.
    split; [apply init_range_val_cons |]. split; [done |]. split; [done |].
    apply construct_Ok in Hc as (p' & ps' & [= <- <-] & Hd & Hn & Hg & _).
    rewrite derive_depth_clamped in Hd by lra. injection Hd as Hd.
    rewrite <- Hd in Hn. change (derive_n_cells 0) with 1 in Hn.
    split; [done |]. split; [done |].
    assert (Hzero : ∀ t', grid_params t' = grid_params t →
      n_cells t' = 1 ∧
      (∀ π, is_axis π → (π (cell_size t') == 0)%Q) ∧
      (∀ π, is_axis π → (π (global_max t') - π (global_min t') == 0)%Q) ∧
      (default_extent t' == 0)%Q).
    { intros t' Hfr. apply (grid_ok_frame t t') in Hg; [| done].
      destruct Hg as (_ & _ & Hax & Hde).
      assert (Hn' : n_cells t' = 1) by (unfold grid_params in Hfr; congruence).
      rewrite Hn' in *. split; [done |]. split; [| split].
      - intros π Hπ. destruct (Hax π Hπ) as [_ Hcs]. rewrite Hcs, Hrv0. field.
      - intros π Hπ. destruct (Hax π Hπ) as [Hw _]. by rewrite Hw.
      - rewrite Hde, Hrv0. field. }
    destruct (Hzero t eq_refl) as (_ & Hcs0 & Hw0 & Hde0).
    do 3 (split; [done |]).
    intros cs q.
    destruct (Hzero (after_calls t cs) (after_calls_grid_params cs t))
      as (Hn' & Hcs' & Hw' & _).
    split; [by apply Hcells |]. split; [by apply Hquery |]. split.
    { unfold nonfinite_index, np_clip. rewrite Hn'. lia. }
    intros π x Hπ. unfold cell_quotient, rel_pos.
    by rewrite !np_div_zero by (by apply Hcs' || by apply Hw').
Qed.

(** ** The scenario of the specification *)

(** C8: [__init__] on the positions [[0,0,0],[1,1,1]] with
    [min_cell_size = 0.6] gives [range_val = 1], [depth = 0] and one cell
    per axis, the cell [(0,0,0)]; [query([0.5,0.5,0.5])] returns [[0,1]];
    after [remove_point(0)] it returns [[1]] and the reverse index has no
    handle [0]. *)
Theorem concrete_scenario :
  ∃ rv t,
    init_range_val unit_points = Ok rv ∧ (rv == 1)%Q ∧
    __init__ unit_points [ones; ones] [identity; identity] (6 # 10) = Ok t ∧
    depth t = 0 ∧ n_cells t = 1 ∧
    (∀ p, query_cell t p = (0, 0, 0)) ∧
    dom (cells t) = {[ (0, 0, 0) ]} ∧
    query t centre = [0; 1] ∧
    query (remove_point t 0) centre = [1] ∧
    point_cells (remove_point t 0) !! 0 = None.
Proof.
  eexists _, _. split; [vm_compute; reflexivity |]. split; [reflexivity |].
  split; [vm_compute; reflexivity |].
  split; [reflexivity |]. split; [reflexivity |].
  split.
  { intros p. unfold query_cell, query_index, np_clip. cbn [n_cells].
    f_equal; [f_equal |]; lia. }
  split; [by vm_compute |].
  split; [vm_compute; reflexivity |].
  split; vm_compute; reflexivity.
Qed.

(** * Further properties *)

(** ** The grid and the cell set *)

(** X2: on every constructed object, and after every sequence of calls,
    [depth] is not negative and the number of cells per axis is the
    power of two [2 ** depth], at least one. *)
Theorem grid_is_power_of_two pts scs rots mcs t0 cs :
  __init__ pts scs rots mcs = Ok t0 →
  0 ≤ depth (after_calls t0 cs) ∧
  n_cells (after_calls t0 cs) = 2 ^ depth (after_calls t0 cs) ∧
  1 ≤ n_cells (after_calls t0 cs).
Proof.
  intros Hc. pose proof (after_calls_grid_params cs t0) as Hfr.
  unfold grid_params in Hfr. injection Hfr as _ _ -> -> _ _.
  apply construct_Ok in Hc as (p & ps & _ & Hd & Hn & Hg & _).
  destruct Hg as (Hrv & Hn1 & _).
  pose proof (derive_depth_nonneg _ _ _ Hrv Hd) as Hd0.
  split; [done |]. split; [by rewrite Hn, derive_n_cells_pow | done].
Qed.

(** X3: [__init__] returns only if there is a position, the scales and
    the rotations are at least as many as the positions, and
    [min_cell_size] is positive or not below [range_val]; in every other
    case it raises. *)
Theorem init_returns_only_if pts scs rots mcs t :
  __init__ pts scs rots mcs = Ok t →
  pts ≠ [] ∧
  (length pts ≤ length scs)%nat ∧ (length pts ≤ length rots)%nat ∧
  ∃ rv, init_range_val pts = Ok rv ∧ ((0 < mcs)%Q ∨ (rv <= mcs)%Q).
Proof.
  intros Hc. pose proof Hc as
    (p & ps & -> & Hd & _ & Hg & Hp & Hs & Hr & _ & [Hs' Hr'] & _)%construct_Ok.
  rewrite Hp, Hs in Hs'. rewrite Hp, Hr in Hr'.
  split; [done |]. split; [done |]. split; [done |].
  exists (bbox_range p ps). split; [apply init_range_val_cons |].
  destruct Hg as (Hrv & _).
  destruct (Qlt_le_dec mcs (bbox_range p ps)) as [Hlt | Hle]; [| by right].
  left. by destruct (derive_depth_computed _ _ _ Hrv Hlt Hd).
Qed.

Lemma np_clip_range z n : 1 ≤ n → 0 ≤ np_clip z 0 (n - 1) < n.
Proof. unfold np_clip. lia. Qed.

Lemma reachable_grid_ok pts scs rots mcs t0 cs :
  __init__ pts scs rots mcs = Ok t0 →
  ∃ rv, init_range_val pts = Ok rv ∧ grid_ok (after_calls t0 cs) rv.
Proof.
  intros (p & ps & -> & _ & _ & Hg & _)%construct_Ok.
  exists (bbox_range p ps). split; [apply init_range_val_cons |].
  apply (grid_ok_frame t0); [| done]. symmetry. apply after_calls_grid_params.
Qed.

(** X4: the cell set of a position never has a cell twice, and every
    cell in it, like the cell [query_cell] returns, has its three indices
    in [0, n_cells): positions outside the cube are registered and looked
    up in cells of the grid. *)
Theorem cell_set_in_grid pts scs rots mcs t0 cs p :
  __init__ pts scs rots mcs = Ok t0 →
  NoDup (_get_cell_indices_for_point (after_calls t0 cs) p) ∧
  (∀ c, c ∈ _get_cell_indices_for_point (after_calls t0 cs) p →
     0 ≤ c.1.1 < n_cells (after_calls t0 cs) ∧
     0 ≤ c.1.2 < n_cells (after_calls t0 cs) ∧
     0 ≤ c.2 < n_cells (after_calls t0 cs)) ∧
  0 ≤ (query_cell (after_calls t0 cs) p).1.1 < n_cells (after_calls t0 cs) ∧
  0 ≤ (query_cell (after_calls t0 cs) p).1.2 < n_cells (after_calls t0 cs) ∧
  0 ≤ (query_cell (after_calls t0 cs) p).2 < n_cells (after_calls t0 cs).
Proof.
  intros Hc. destruct (reachable_grid_ok _ _ _ _ _ cs Hc) as (rv & _ & Hg).
  set (t := after_calls t0 cs) in *. clearbody t.
  destruct Hg as (_ & Hn & _).
  pose proof (λ z, np_clip_range z _ Hn) as Hr.
  split; [apply cell_indices_NoDup |]. split.
  - intros c Hin. apply elem_of_cell_indices in Hin. cbv zeta in Hin.
    unfold cell_index in Hin.
    destruct Hin as ((Hx1 & Hx2) & (Hy1 & Hy2) & (Hz1 & Hz2)).
    repeat split;
      first [ by eapply Z.le_trans; [apply Hr |]
            | by eapply Z.le_lt_trans; [| apply Hr] ].
  - unfold query_cell, query_index. cbn [fst snd]. repeat split; apply Hr.
Qed.

(** ** Handles, queries and the three mutators *)

Lemma list_filter_ne_notin (h : Z) (l : list Z) : h ∉ l → filter (λ x, x ≠ h) l = l.
Proof.
  induction l as [| y l IH]; [done |]. intros [Hne Hl]%not_elem_of_cons.
  rewrite filter_cons_True by done. by rewrite IH.
Qed.

Lemma list_remove_filter (h : Z) (l : list Z) :
  NoDup l → list_remove h l = filter (λ x, x ≠ h) l.
Proof.
  induction 1 as [| y l Hy Hl IH]; [done |]. simpl. case_decide as Hhy.
  - subst y. rewrite filter_cons_False by (by intros ?).
    by rewrite list_filter_ne_notin.
  - rewrite filter_cons_True by done. by rewrite IH.
Qed.

Lemma construct_stores_ok pts scs rots mcs t0 cs :
  __init__ pts scs rots mcs = Ok t0 → stores_ok (after_calls t0 cs).
Proof.
  intros Hc. apply after_calls_stores_ok.
  apply construct_Ok in Hc. destruct Hc as (? & ? & ?). tauto.
Qed.

Lemma after_call_length t c :
  length (points (after_call t c)) =
  (length (points t) + (if is_insert c then 1 else 0))%nat.
Proof.
  destruct c as [p s r | i p s r | i | q | q]; simpl.
  - rewrite length_app. simpl. lia.
  - unfold update_point. rewrite <- (remove_points t i).
    destruct (np_setitem _ i p) as [ps |] eqn:Hps; [| simpl; lia].
    apply np_setitem_Ok in Hps as [Hps _].
    destruct (np_setitem _ i s); [| simpl; lia].
    destruct (np_setitem _ i r); simpl; lia.
  - rewrite remove_points. lia.
  - lia.
  - lia.
Qed.

Lemma after_calls_length cs : ∀ t,
  length (points (after_calls t cs)) = (length (points t) + n_inserts cs)%nat.
Proof.
  unfold after_calls, n_inserts.
  induction cs as [| c cs IH]; intros t; [simpl; lia |].
  cbn [foldl]. rewrite IH, after_call_length.
  destruct (decide (is_insert c)) as [Hc' | Hc'];
    [rewrite filter_cons_True by done | rewrite filter_cons_False by done];
    destruct (is_insert c); simpl in *; try done; try lia.
Qed.

(** X7: handles are given out in sequence and never again: the handle
    [insert_point] returns is the number of initial positions plus the
    number of [insert_point] calls made before, whatever was removed or
    updated in between. *)
Theorem handles_are_sequential pts scs rots mcs t0 cs p s r :
  __init__ pts scs rots mcs = Ok t0 →
  (insert_point (after_calls t0 cs) p s r).2 =
  Z.of_nat (length pts + n_inserts cs).
Proof.
  intros Hc. unfold insert_point. cbn [snd]. rewrite after_calls_length.
  apply construct_Ok in Hc as (q & qs & -> & _ & _ & _ & -> & _). done.
Qed.

(** X8: after [insert_point] at a position, [query] at any position
    returns what it returned before, followed by the new handle exactly
    when the queried cell is one of the cells of the inserted position. *)
Theorem query_after_insert pts scs rots mcs t0 cs p s r :
  __init__ pts scs rots mcs = Ok t0 →
  ∀ q,
    query (insert_point (after_calls t0 cs) p s r).1 q =
    query (after_calls t0 cs) q ++
      (if decide (query_cell (after_calls t0 cs) q
                    ∈ _get_cell_indices_for_point (after_calls t0 cs) p)
       then [(insert_point (after_calls t0 cs) p s r).2] else []).
Proof.
  intros Hc q. unfold query, insert_point. cbn [fst snd].
  by rewrite insert_cells_get.
Qed.

(** X9: [remove_point] takes the handle out of every cell list and keeps
    the other handles in their order; it deletes the handle's entry of the
    reverse index and keeps the others; it leaves the three arrays as they
    are; afterwards no [query] returns the handle. *)
Theorem remove_point_filters pts scs rots mcs t0 cs h :
  __init__ pts scs rots mcs = Ok t0 →
  point_cells (remove_point (after_calls t0 cs) h) =
    delete h (point_cells (after_calls t0 cs)) ∧
  (∀ c, cells_get (remove_point (after_calls t0 cs) h) c =
        filter (λ x, x ≠ h) (cells_get (after_calls t0 cs) c)) ∧
  (∀ q, query (remove_point (after_calls t0 cs) h) q =
        filter (λ x, x ≠ h) (query (after_calls t0 cs) q)) ∧
  (∀ q, h ∉ query (remove_point (after_calls t0 cs) h) q) ∧
  points (remove_point (after_calls t0 cs) h) = points (after_calls t0 cs) ∧
  scales (remove_point (after_calls t0 cs) h) = scales (after_calls t0 cs) ∧
  rotations (remove_point (after_calls t0 cs) h)
    = rotations (after_calls t0 cs).
Proof.
  intros Hc. pose proof (construct_index_ok _ _ _ _ _ cs Hc) as Hiok.
  set (t := after_calls t0 cs) in *. clearbody t.
  assert (Hcells : ∀ c,
    cells_get (remove_point t h) c = filter (λ x, x ≠ h) (cells_get t c)).
  { intros c. rewrite remove_cells_get by apply (ok_point_cells_nodup _ Hiok).
    case_decide as Hin.
    - apply list_remove_filter, (ok_cells_nodup _ Hiok).
    - symmetry. apply list_filter_ne_notin.
      by rewrite (ok_consistent _ Hiok h c). }
  assert (Hq : ∀ q,
    query (remove_point t h) q = filter (λ x, x ≠ h) (query t q)).
  { intros q. unfold query.
    rewrite (query_cell_frame (remove_point t h) t) by apply remove_grid_params.
    apply Hcells. }
  split; [apply remove_point_cells |]. split; [done |]. split; [done |].
  split.
  { intros q. rewrite Hq. intros [Hne _]%list_elem_of_filter. done. }
  by rewrite remove_points, remove_scales, remove_rotations.
Qed.

(** X10: what [query] returns has no handle twice, and every handle in
    it is a key of the reverse index and an index the arrays accept. *)
Theorem query_results_valid pts scs rots mcs t0 cs q :
  __init__ pts scs rots mcs = Ok t0 →
  NoDup (query (after_calls t0 cs) q) ∧
  ∀ h, h ∈ query (after_calls t0 cs) q →
    query_cell (after_calls t0 cs) q ∈ point_cells_get (after_calls t0 cs) h ∧
    is_Some (point_cells (after_calls t0 cs) !! h) ∧
    is_Ok (np_getitem (points (after_calls t0 cs)) h) ∧
    is_Ok (np_getitem (scales (after_calls t0 cs)) h) ∧
    is_Ok (np_getitem (rotations (after_calls t0 cs)) h).
Proof.
  intros Hc. pose proof (construct_index_ok _ _ _ _ _ cs Hc) as Hiok.
  pose proof (construct_stores_ok _ _ _ _ _ cs Hc) as [Hs Hr].
  set (t := after_calls t0 cs) in *. clearbody t.
  split; [apply (ok_cells_nodup _ Hiok) |].
  intros h Hh. unfold query in Hh. apply (ok_consistent _ Hiok) in Hh.
  split; [done |].
  assert (Hreg : is_Some (point_cells t !! h)).
  { unfold point_cells_get in Hh. destruct (point_cells t !! h); [done |].
    by apply elem_of_nil in Hh. }
  split; [done |]. pose proof (ok_handles _ Hiok h Hreg) as Hrange.
  assert (Hget : ∀ A (l : list A),
    (length (points t) ≤ length l)%nat → is_Ok (np_getitem l h)).
  { intros A l Hl. unfold np_getitem.
    set (j := if decide (0 ≤ h) then h else Z.of_nat (length l) + h).
    assert (0 ≤ j < Z.of_nat (length l)) by (unfold j; case_decide; lia).
    rewrite decide_True by done.
    destruct (lookup_lt_is_Some_2 l (Z.to_nat j)) as [x Hx]; [lia |].
    rewrite Hx. by eexists. }
  repeat split; by apply Hget.
Qed.

(** X12: [update_point] with an index outside [-N, N), [N] being the
    length of the arrays, raises [IndexError] and leaves the object as it
    was. *)
Theorem update_point_bad_index pts scs rots mcs t0 cs i p s r :
  __init__ pts scs rots mcs = Ok t0 →
  ¬ (- Z.of_nat (length (points (after_calls t0 cs))) ≤ i
       < Z.of_nat (length (points (after_calls t0 cs)))) →
  update_point (after_calls t0 cs) i p s r =
    (after_calls t0 cs, Err IndexError).
Proof.
  intros Hc Hout. pose proof (construct_index_ok _ _ _ _ _ cs Hc) as Hiok.
  set (t := after_calls t0 cs) in *. clearbody t.
  assert (Hnone : point_cells t !! i = None).
  { destruct (point_cells t !! i) eqn:Hi; [| done].
    destruct Hout. apply (ok_handles _ Hiok). by eexists. }
  unfold update_point, remove_point. rewrite Hnone.
  unfold np_setitem. rewrite !decide_False by lia. done.
Qed.



Lemma after_calls_lengths_eq cs : ∀ t,
  length (scales t) = length (points t) →
  length (rotations t) = length (points t) →
  length (scales (after_calls t cs)) = length (points (after_calls t cs)) ∧
  length (rotations (after_calls t cs)) = length (points (after_calls t cs)).
Proof.
  unfold after_calls. induction cs as [| c cs IH]; intros t Hs Hr; [done |].
  cbn [foldl]. apply IH; destruct c as [p s r | i p s r | i | q | q]; simpl;
    try done; try (rewrite !length_app; simpl; lia);
    try (by rewrite ?remove_scales, ?remove_rotations, ?remove_points).
  - unfold update_point. rewrite <- (remove_points t i) in Hs.
    rewrite <- (remove_scales t i) in Hs.
    destruct (np_setitem (points _) i p) as [ps |] eqn:Hps; [| done].
    apply np_setitem_Ok in Hps as [Hps _].
    destruct (np_setitem _ i s) as [ss |] eqn:Hss; [| cbn in *; lia].
    apply np_setitem_Ok in Hss as [Hss _]. cbn in Hss.
    destruct (np_setitem _ i r); cbn; lia.
  - unfold update_point. rewrite <- (remove_points t i) in Hr.
    rewrite <- (remove_rotations t i) in Hr.
    destruct (np_setitem (points _) i p) as [ps |] eqn:Hps; [| done].
    apply np_setitem_Ok in Hps as [Hps _].
    destruct (np_setitem _ i s) as [ss |] eqn:Hss; [| cbn in *; lia].
    destruct (np_setitem _ i r) as [rs |] eqn:Hrs; [| cbn in *; lia].
    apply np_setitem_Ok in Hrs as [Hrs _]. cbn in Hrs. cbn. lia.
Qed.

(** X15: when [__init__] was given as many scales and rotations as
    positions, the three arrays keep one length through every call, and
    [insert_point] stores the position, the scale and the rotation at the
    handle it returns. *)
Theorem stored_attributes_aligned pts scs rots mcs t0 cs p s r :
  __init__ pts scs rots mcs = Ok t0 →
  length scs = length pts → length rots = length pts →
  length (scales (after_calls t0 cs)) = length (points (after_calls t0 cs)) ∧
  length (rotations (after_calls t0 cs)) = length (points (after_calls t0 cs)) ∧
  np_getitem (points (insert_point (after_calls t0 cs) p s r).1)
    (insert_point (after_calls t0 cs) p s r).2 = Ok p ∧
  np_getitem (scales (insert_point (after_calls t0 cs) p s r).1)
    (insert_point (after_calls t0 cs) p s r).2 = Ok s ∧
  np_getitem (rotations (insert_point (after_calls t0 cs) p s r).1)
    (insert_point (after_calls t0 cs) p s r).2 = Ok r.
Proof.
  intros Hc Hs Hr.
  pose proof Hc as (q & qs & -> & _ & _ & _ & Hp0 & Hs0 & Hr0 & _)%construct_Ok.
  destruct (after_calls_lengths_eq cs t0) as [Hs' Hr']; [congruence .. |].
  set (t := after_calls t0 cs) in *. clearbody t.
  split; [done |]. split; [done |].
  unfold insert_point. cbn [fst snd points scales rotations _insert_point
    set_cells set_point_cells set_rotations set_scales set_points].
  repeat split; apply np_getitem_nonneg; try lia; rewrite Nat2Z.id.
  - by apply list_lookup_middle.
  - by apply list_lookup_middle.
  - by apply list_lookup_middle.
Qed.

(** ** The order [__init__] registers in *)

Lemma seqZ_StronglySorted n : ∀ m, StronglySorted Z.lt (seqZ m (Z.of_nat n)).
Proof.
  induction n as [| n IH]; intros m; [constructor |].
  rewrite seqZ_cons by lia. constructor.
  - replace (Z.pred (Z.of_nat (S n))) with (Z.of_nat n) by lia. apply IH.
  - apply Forall_forall. intros x Hx%elem_of_seqZ. lia.
Qed.

Lemma py_range_StronglySorted a b : StronglySorted Z.lt (py_range a b).
Proof.
  unfold py_range. destruct (decide (0 ≤ b - a)) as [Hle | Hlt].
  - rewrite <- (Z2Nat.id (b - a)) by done. apply seqZ_StronglySorted.
  - replace (seqZ a (b - a)) with (@nil Z); [constructor |].
    symmetry. apply seqZ_nil. lia.
Qed.

Lemma build_index_sorted idx : ∀ t t',
  build_index t idx = Ok t' →
  StronglySorted Z.lt idx →
  (∀ c, StronglySorted Z.lt (cells_get t c)) →
  (∀ c h i, h ∈ cells_get t c → i ∈ idx → h < i) →
  ∀ c, StronglySorted Z.lt (cells_get t' c).
Proof.
  induction idx as [| i idx IH]; intros t t' Hb Hidx Hsorted Hbelow.
  - by injection Hb as <-.
  - cbn [build_index] in Hb.
    destruct (np_getitem (points t) i) as [p |]; [| done].
    destruct (np_getitem (scales t) i) as [s |]; [| done].
    destruct (np_getitem (rotations t) i) as [r |]; [| done].
    cbn in Hb. apply StronglySorted_inv in Hidx as [Hidx Hi].
    rewrite Forall_forall in Hi.
    apply (IH _ _ Hb Hidx).
    + intros c. rewrite insert_cells_get. apply StronglySorted_app.
      split; [| split; [done |]].
      * intros x1 x2 Hx1 Hx2. case_decide; [| by apply elem_of_nil in Hx2].
        apply list_elem_of_singleton in Hx2 as ->. apply (Hbelow c); [done | left].
      * case_decide; repeat constructor.
    + intros c h j. rewrite insert_cells_get, elem_of_app.
      intros [Hh | Hh] Hj.
      * apply (Hbelow c); [done | by right].
      * case_decide; [| by apply elem_of_nil in Hh].
        apply list_elem_of_singleton in Hh as ->. by apply Hi.
Qed.

(** X16: [__init__] keeps the positions it was given, registers exactly
    the handles [0 .. N-1], each at the cell set of its position, and
    fills every cell list in increasing handle order, so that [query] on
    the new object returns handles in increasing order. *)
Theorem init_registers_in_order pts scs rots mcs t :
  __init__ pts scs rots mcs = Ok t →
  points t = pts ∧
  (∀ h, is_Some (point_cells t !! h) ↔ 0 ≤ h < Z.of_nat (length pts)) ∧
  (∀ h q, 0 ≤ h → pts !! Z.to_nat h = Some q →
     point_cells t !! h = Some (_get_cell_indices_for_point t q)) ∧
  (∀ c, StronglySorted Z.lt (cells_get t c)) ∧
  (∀ q, StronglySorted Z.lt (query t q)).
Proof.
  intros Hc.
  pose proof Hc as
    (p & ps & Hpts & _ & _ & _ & Hp & _ & _ & _ & _ & Hdom & Hreg)%construct_Ok.
  split; [done |]. split.
  { intros h. split; [apply Hdom |]. intros Hh.
    destruct (lookup_lt_is_Some_2 pts (Z.to_nat h)) as [q Hq]; [lia |].
    rewrite (Hreg h q) by (done || lia). by eexists. }
  split; [done |].
  assert (Hsorted : ∀ c, StronglySorted Z.lt (cells_get t c)).
  { unfold __init__ in Hc.
    destruct (derive_grid pts scs rots mcs) as [t0 |] eqn:Hg; [| done].
    cbn in Hc.
    apply derive_grid_Ok in Hg as (_ & _ & _ & _ & _ & _ & _ & _ & _ & Hcells & _).
    apply (build_index_sorted _ _ _ Hc); [apply py_range_StronglySorted | |].
    - intros c. unfold cells_get. rewrite Hcells, lookup_empty. constructor.
    - intros c h i. unfold cells_get. rewrite Hcells, lookup_empty.
      by intros ?%elem_of_nil. }
  split; [done |]. intros q. apply Hsorted.
Qed.

End octree.

(** * The theorems on concrete objects *)

Lemma reverse_index_consistency_witness :
  ∃ t0,
    __init__ int64_min wide_points [ones; ones] [identity; identity] (6 # 10)
      = Ok t0 ∧
    ∀ h c,
      h ∈ cells_get
            (after_calls int64_min t0
               [InsertPoint centre ones identity;
                UpdatePoint 0 ones ones identity; RemovePoint 1]) c ↔
      c ∈ point_cells_get
            (after_calls int64_min t0
               [InsertPoint centre ones identity;
                UpdatePoint 0 ones ones identity; RemovePoint 1]) h.
Proof.
  eexists. split; [vm_compute; reflexivity |].
  apply (reverse_index_consistency int64_min wide_points [ones; ones]
           [identity; identity] (6 # 10)).
  vm_compute. reflexivity.
Defined.



Lemma update_same_position_witness :
  ∃ t0,
    __init__ int64_min unit_points [ones; ones] [identity; identity] (6 # 10)
      = Ok t0 ∧
    ∃ t',
      update_point int64_min (after_calls int64_min t0 []) 0 origin ones identity
        = (t', Ok ()) ∧
      length (points t') = length (points (after_calls int64_min t0 [])) ∧
      length (scales t') = length (scales (after_calls int64_min t0 [])) ∧
      length (rotations t') = length (rotations (after_calls int64_min t0 [])) ∧
      point_cells t' = point_cells (after_calls int64_min t0 []) ∧
      ∀ c,
        cells_get t' c ≡ₚ cells_get (after_calls int64_min t0 []) c ∧
        cells_get t' c =
          if decide (0 ∈ cells_get (after_calls int64_min t0 []) c)
          then list_remove 0 (cells_get (after_calls int64_min t0 []) c) ++ [0]
          else cells_get (after_calls int64_min t0 []) c.
Proof.
  eexists. split; [vm_compute; reflexivity |].
  apply (update_same_position int64_min unit_points [ones; ones]
           [identity; identity] (6 # 10)).
  - vm_compute. reflexivity.
  - vm_compute. reflexivity.
Defined.

(** C3 as stated fails: the update moves handle 0 behind handle 1. *)
Lemma update_same_position_reorders :
  ∃ t t',
    __init__ int64_min unit_points [ones; ones] [identity; identity] (6 # 10)
      = Ok t ∧
    points t !! 0%nat = Some origin ∧
    scales t !! 0%nat = Some ones ∧
    rotations t !! 0%nat = Some identity ∧
    update_point int64_min t 0 origin ones identity = (t', Ok ()) ∧
    cells_get t (0, 0, 0) = [0; 1] ∧
    cells_get t' (0, 0, 0) = [1; 0] ∧
    query int64_min t centre ≠ query int64_min t' centre.
Proof.
  eexists _, _. split; [vm_compute; reflexivity |].
  do 3 (split; [reflexivity |]).
  split; [vm_compute; reflexivity |].
  split; [vm_compute; reflexivity |].
  split; [vm_compute; reflexivity |].
  vm_compute. discriminate.
Defined.

Lemma insert_then_remove_witness :
  ∃ t0,
    __init__ int64_min wide_points [ones; ones] [identity; identity] (6 # 10)
      = Ok t0 ∧
    ∃ t1 h,
      insert_point int64_min (after_calls int64_min t0 [RemovePoint 0])
        ones ones identity = (t1, h) ∧
      h = Z.of_nat (length (points (after_calls int64_min t0 [RemovePoint 0]))) ∧
      point_cells (after_calls int64_min t0 [RemovePoint 0]) !! h = None ∧
      point_cells t1 !! h =
        Some (_get_cell_indices_for_point int64_min
                (after_calls int64_min t0 [RemovePoint 0]) ones) ∧
      (∀ c, c ∈ _get_cell_indices_for_point int64_min
                  (after_calls int64_min t0 [RemovePoint 0]) ones →
         h ∈ cells_get t1 c) ∧
      point_cells (remove_point t1 h) !! h = None ∧
      (∀ c, h ∉ cells_get (remove_point t1 h) c) ∧
      (∀ c, cells_get (remove_point t1 h) c =
            cells_get (after_calls int64_min t0 [RemovePoint 0]) c) ∧
      point_cells (remove_point t1 h) =
        point_cells (after_calls int64_min t0 [RemovePoint 0]).
Proof.
  eexists. split; [vm_compute; reflexivity |].
  apply (insert_then_remove int64_min wide_points [ones; ones]
           [identity; identity] (6 # 10)).
  vm_compute. reflexivity.
Defined.


Lemma construct_input_errors_witness :
  is_Err (derive_grid wide_points [ones; ones] [identity; identity] (-1 # 2)) ∧
  is_Err (__init__ int64_min wide_points [ones; ones] [identity; identity]
            (-1 # 2)).
Proof.
  apply (construct_input_errors int64_min wide_points [ones; ones]
           [identity; identity] (-1 # 2)).
  right. left. reflexivity.
Defined.

(** C7 as stated fails: three scales for two positions are accepted, and
    so is [min_cell_size = 0] when the positions are one point. *)
Lemma construct_accepts_bad_input :
  (∃ t, __init__ int64_min unit_points [ones; ones; ones]
          [identity; identity] (6 # 10) = Ok t) ∧
  (∃ t, __init__ int64_min [ones; ones] [ones; ones]
          [identity; identity] 0 = Ok t).
Proof.
  split; eexists; vm_compute; reflexivity.
Defined.

Lemma degenerate_grid_witness :
  ∃ rv t,
    init_range_val [ones; ones] = Ok rv ∧ (rv == 0)%Q ∧
    __init__ int64_min [ones; ones] [ones; ones] [identity; identity] (6 # 10)
      = Ok t ∧
    depth t = 0 ∧ n_cells t = 1 ∧
    (∀ π, is_axis π → (π (cell_size t) == 0)%Q) ∧
    (default_extent t == 0)%Q ∧
    ∀ p,
      _get_cell_indices_for_point int64_min t p = [(0, 0, 0)] ∧
      query_cell int64_min t p = (0, 0, 0).
Proof.
  destruct (proj2 (proj2 (proj2 (degenerate_grid int64_min [ones; ones]
    [ones; ones] [identity; identity] (6 # 10)))))
    as (rv & t & Hrv & Hrv0 & Hc & Hd & Hn & Hcs & _ & Hde & Hall).
  - discriminate.
  - intros a b Ha Hb.
    assert (Hone : ∀ c, c ∈ [ones; ones] → c = ones).
    { intros c Hc. repeat apply elem_of_cons in Hc as [-> | Hc]; try done.
      by apply elem_of_nil in Hc. }
    rewrite (Hone a Ha), (Hone b Hb). by repeat split.
  - intros q π Hq Hπ.
    assert (q = ones) as ->.
    { repeat apply elem_of_cons in Hq as [-> | Hq]; try done.
      by apply elem_of_nil in Hq. }
    destruct Hπ as [-> | [-> | ->]]; by vm_compute.
  - by vm_compute.
  - simpl. lia.
  - simpl. lia.
  - exists rv, t. do 7 (split; [done |]). intros p.
    destruct (Hall [] p) as (H1 & H2 & H3 & _).
    change (after_calls int64_min t []) with t in *.
    by rewrite H1, H2, H3.
Defined.

(** * The further properties on concrete objects *)

Lemma grid_is_power_of_two_witness :
  ∃ t0,
    __init__ int64_min wide_points [ones; ones] [identity; identity] (6 # 10)
      = Ok t0 ∧
    depth t0 = 2 ∧
    0 ≤ depth (after_calls int64_min t0 [RemovePoint 0]) ∧
    n_cells (after_calls int64_min t0 [RemovePoint 0])
      = 2 ^ depth (after_calls int64_min t0 [RemovePoint 0]) ∧
    1 ≤ n_cells (after_calls int64_min t0 [RemovePoint 0]).
Proof.
  eexists. split; [vm_compute; reflexivity |]. split; [reflexivity |].
  apply (grid_is_power_of_two int64_min wide_points [ones; ones]
           [identity; identity] (6 # 10)).
  vm_compute. reflexivity.
Defined.

Lemma init_returns_only_if_witness :
  ∃ t,
    __init__ int64_min wide_points [ones; ones; ones] [identity; identity]
      (6 # 10) = Ok t ∧
    wide_points ≠ [] ∧
    (length wide_points ≤ length [ones; ones; ones])%nat ∧
    (length wide_points ≤ length [identity; identity])%nat ∧
    ∃ rv, init_range_val wide_points = Ok rv ∧
          ((0 < 6 # 10)%Q ∨ (rv <= 6 # 10)%Q).
Proof.
  eexists. split; [vm_compute; reflexivity |].
  eapply (init_returns_only_if int64_min wide_points [ones; ones; ones]
            [identity; identity] (6 # 10)).
  vm_compute. reflexivity.
Defined.

Lemma cell_set_in_grid_witness :
  ∃ t0,
    __init__ int64_min wide_points [ones; ones] [identity; identity] (6 # 10)
      = Ok t0 ∧
    query_cell int64_min t0 (9, -3, 2)%Q = (3, 0, 2) ∧
    NoDup (_get_cell_indices_for_point int64_min
             (after_calls int64_min t0 []) (9, -3, 2)%Q) ∧
    ∀ c, c ∈ _get_cell_indices_for_point int64_min
                (after_calls int64_min t0 []) (9, -3, 2)%Q →
      0 ≤ c.1.1 < n_cells (after_calls int64_min t0 []) ∧
      0 ≤ c.1.2 < n_cells (after_calls int64_min t0 []) ∧
      0 ≤ c.2 < n_cells (after_calls int64_min t0 []).
Proof.
  eexists. split; [vm_compute; reflexivity |].
  split; [vm_compute; reflexivity |].
  pose proof (cell_set_in_grid int64_min wide_points [ones; ones]
                [identity; identity] (6 # 10) _ [] (9, -3, 2)%Q eq_refl)
    as (H1 & H2 & _).
  exact (conj H1 H2).
Defined.

Lemma handles_are_sequential_witness :
  ∃ t0,
    __init__ int64_min unit_points [ones; ones] [identity; identity] (6 # 10)
      = Ok t0 ∧
    (insert_point int64_min
       (after_calls int64_min t0
          [InsertPoint centre ones identity; RemovePoint 2; RemovePoint 0])
       centre ones identity).2 = 3.
Proof.
  eexists. split; [vm_compute; reflexivity |].
  apply (handles_are_sequential int64_min unit_points [ones; ones]
           [identity; identity] (6 # 10)).
  vm_compute. reflexivity.
Defined.

Lemma query_after_insert_witness :
  ∃ t0,
    __init__ int64_min wide_points [ones; ones] [identity; identity] (6 # 10)
      = Ok t0 ∧
    query int64_min
      (insert_point int64_min (after_calls int64_min t0 []) (9, 9, 9)%Q
         ones identity).1 (9, 9, 9)%Q = [1; 2] ∧
    ∀ q,
      query int64_min
        (insert_point int64_min (after_calls int64_min t0 []) (9, 9, 9)%Q
           ones identity).1 q =
      query int64_min (after_calls int64_min t0 []) q ++
        (if decide (query_cell int64_min (after_calls int64_min t0 []) q
                      ∈ _get_cell_indices_for_point int64_min
                          (after_calls int64_min t0 []) (9, 9, 9)%Q)
         then [(insert_point int64_min (after_calls int64_min t0 [])
                  (9, 9, 9)%Q ones identity).2]
         else []).
Proof.
  eexists. split; [vm_compute; reflexivity |].
  split; [vm_compute; reflexivity |].
  apply (query_after_insert int64_min wide_points [ones; ones]
           [identity; identity] (6 # 10)).
  vm_compute. reflexivity.
Defined.

Lemma remove_point_filters_witness :
  ∃ t0,
    __init__ int64_min unit_points [ones; ones] [identity; identity] (6 # 10)
      = Ok t0 ∧
    ∀ q, 0 ∉ query int64_min
               (remove_point (after_calls int64_min t0 []) 0) q.
Proof.
  eexists. split; [vm_compute; reflexivity |].
  apply (remove_point_filters int64_min unit_points [ones; ones]
           [identity; identity] (6 # 10)).
  vm_compute. reflexivity.
Defined.

Lemma query_results_valid_witness :
  ∃ t0,
    __init__ int64_min unit_points [ones; ones] [identity; identity] (6 # 10)
      = Ok t0 ∧
    NoDup (query int64_min
             (after_calls int64_min t0 [UpdatePoint (-1) centre ones identity])
             centre).
Proof.
  eexists. split; [vm_compute; reflexivity |].
  apply (query_results_valid int64_min unit_points [ones; ones]
           [identity; identity] (6 # 10)).
  vm_compute. reflexivity.
Defined.

Lemma update_point_bad_index_witness :
  ∃ t0,
    __init__ int64_min unit_points [ones; ones] [identity; identity] (6 # 10)
      = Ok t0 ∧
    update_point int64_min (after_calls int64_min t0 []) 2 centre ones identity
      = (after_calls int64_min t0 [], Err IndexError).
Proof.
  eexists. split; [vm_compute; reflexivity |].
  apply (update_point_bad_index int64_min unit_points [ones; ones]
           [identity; identity] (6 # 10)).
  - vm_compute. reflexivity.
  - vm_compute. intros [_ H]. discriminate H.
Defined.



Lemma stored_attributes_aligned_witness :
  ∃ t0,
    __init__ int64_min unit_points [ones; ones] [identity; identity] (6 # 10)
      = Ok t0 ∧
    np_getitem
      (scales (insert_point int64_min
                 (after_calls int64_min t0 [RemovePoint 1]) centre origin
                 identity).1)
      (insert_point int64_min (after_calls int64_min t0 [RemovePoint 1])
         centre origin identity).2 = Ok origin.
Proof.
  eexists. split; [vm_compute; reflexivity |].
  apply (stored_attributes_aligned int64_min unit_points [ones; ones]
           [identity; identity] (6 # 10)).
  - vm_compute. reflexivity.
  - reflexivity.
  - reflexivity.
Defined.

Lemma init_registers_in_order_witness :
  ∃ t,
    __init__ int64_min unit_points [ones; ones] [identity; identity] (6 # 10)
      = Ok t ∧
    points t = unit_points ∧
    ∀ q, StronglySorted Z.lt (query int64_min t q).
Proof.
  eexists. split; [vm_compute; reflexivity |].
  pose proof (init_registers_in_order int64_min unit_points [ones; ones]
                [identity; identity] (6 # 10) _ eq_refl) as (H1 & _ & _ & _ & H2).
  exact (conj H1 H2).
Defined.
